(** * Systematic-variation dataset generation: a shallow embedding

    This development models [preprocessing/generate_syst_dataset.py]:
    the sampler ([sample_jes], [sample_met]), the shift descriptor builder
    ([make_jes_object_shift]), the bookkeeping annotator
    ([add_syst_columns]) and the batch orchestrator ([main]).

    Python floats are IEEE-754 binary64 numbers and are modelled by Rocq's
    primitive floats; Python integers are modelled by [Z].  The library
    calls of the script (numpy, pyarrow) are modelled from their documented
    behaviour.  The random source and the systematics applier live outside
    the script and are parameters of the pipeline.  The progress messages
    written with [print] have no effect on the tables and are left out. *)

From Stdlib Require Import ZArith Floats Bool List Lia.
From stdpp Require Import base option list gmap strings.
Import ListNotations.

Set Warnings "-inexact-float".

(** * Part I: the program *)

(** ** Python floats *)

Module PyFloat.

(** [x > y] on floats is [y < x]. *)
Definition gtb (x y : float) : bool := (y <? x)%float.

(** [isnan]: a float is NaN exactly when it differs from itself. *)
Definition isnan (x : float) : bool := negb (x =? x)%float.

(** Conversion of a binary64 number to the nearest binary32 number (ties
    to even, overflow to infinity), returned as the binary64 number of
    the same value.  This is the C conversion from [double] to [float]
    that pyarrow performs when it stores a Python float in a [float32]
    array. *)
Definition to_float32 (x : float) : float :=
  match Prim2SF x with
  | S754_finite s m e => SF2Prim (binary_round 24 128 s m e)
  | _ => x
  end.

End PyFloat.

(** ** Exceptions and fallible computations *)

Inductive exn :=
| IndexError
| OverflowError
| ArrowInvalid
| FileNotFoundError
| ValueError
| ExternalError (msg : string).

Inductive result (A : Type) :=
| OK (a : A)
| Error (e : exn).
Arguments OK {A} a.
Arguments Error {A} e.

Definition rbind {A B} (m : result A) (k : A -> result B) : result B :=
  match m with
  | OK a => k a
  | Error e => Error e
  end.

Declare Scope result_scope.
Delimit Scope result_scope with result.
Notation "x <- m ;; k" := (rbind m (fun x => k))
  (at level 100, m at next level, right associativity) : result_scope.

(** ** numpy

    An n-dimensional array is its shape together with its elements in
    row-major order, as numpy stores a contiguous array. *)

Module Numpy.

Record ndarray (A : Type) := mk_ndarray { shape : list nat; data : list A }.
Arguments mk_ndarray {A} shape data.
Arguments shape {A} n.
Arguments data {A} n.

(** Number of elements described by a shape. *)
Definition size (sh : list nat) : nat := foldr Nat.mul 1 sh.

Definition well_formed {A} (x : ndarray A) : Prop :=
  length (data x) = size (shape x).

(** Element [i] of each of the first [rows] consecutive groups of [k]
    elements of [d]. *)
Fixpoint take_along_last {A} (k i rows : nat) (d : list A) : result (list A) :=
  match rows with
  | 0 => OK []
  | S rows' =>
      match d !! i with
      | Some a =>
          (rest <- take_along_last k i rows' (drop k d) ;;
           OK (a :: rest))%result
      | None => Error IndexError
      end
  end.

(** [x[..., i]]: index [i] along the last axis; the result loses that
    axis.  A 0-dimensional array has no axis to index, and [i] must be
    below the length of the last axis. *)
Definition getitem_last {A} (x : ndarray A) (i : nat) : result (ndarray A) :=
  match last (shape x) with
  | None => Error IndexError
  | Some k =>
      if i <? k then
        let lead := removelast (shape x) in
        (d <- take_along_last k i (size lead) (data x) ;;
         OK (mk_ndarray lead d))%result
      else Error IndexError
  end.

(** [x == c], elementwise against a scalar. *)
Definition eq_scalar (x : ndarray float) (c : float) : ndarray bool :=
  mk_ndarray (shape x) (map (fun a => (a =? c)%float) (data x)).

(** [v * c], elementwise by a scalar. *)
Definition mul_scalar (v : ndarray float) (c : float) : ndarray float :=
  mk_ndarray (shape v) (map (fun a => (a * c)%float) (data v)).

(** [np.clip] on a float: [minimum (maximum a lo) hi], where a NaN first
    argument is returned as it is. *)
Definition maximum (a b : float) : float :=
  if PyFloat.isnan a then a else if PyFloat.gtb a b then a else b.

Definition minimum (a b : float) : float :=
  if PyFloat.isnan a then a else if (a <? b)%float then a else b.

Definition clip (a lo hi : float) : float := minimum (maximum a lo) hi.

End Numpy.
Import Numpy.

(** ** Configuration

    The configuration block of the script: module-level names that the
    functions read when they run.  They are grouped in a record so that
    the functions can also be studied under another configuration. *)

Definition INPUT_PARQUET : string :=
  String.append
    "/Users/avencastmini/PycharmProjects/EveNet/workspace/test_data/"
    "Run3_output/data_Run3_test_run_pretrain_0.parquet".

Definition OUTPUT_JES_ONLY : string := "data_syst_JES_only.parquet".
Definition OUTPUT_MET_ONLY : string := "data_syst_MET_only.parquet".
Definition OUTPUT_JES_MET : string := "data_syst_JES_MET.parquet".

Record Config := mk_Config {
  N_DATASETS_PER_TYPE : Z;
  BASE_SLICE : Z;
  JES_SIGMA : float;
  JES_MIN : float;
  JES_MAX : float;
  MET_LOGNORM_MEAN : float;
  MET_LOGNORM_SIGMA : float;
  MET_MIN : float;
  MET_MAX : float
}.

(** The values written in the script; [int(8_000_000 / 50)] is [160000]. *)
Definition module_config : Config :=
  {| N_DATASETS_PER_TYPE := 50;
     BASE_SLICE := 160000;
     JES_SIGMA := 0.01;
     JES_MIN := -0.10;
     JES_MAX := 0.10;
     MET_LOGNORM_MEAN := 0.0;
     MET_LOGNORM_SIGMA := 1.0;
     MET_MIN := 0.0;
     MET_MAX := 5.0 |}.

(** A configuration is valid when both sigmas are positive and both
    clipping intervals have [min < max]. *)
Definition valid_config (cfg : Config) : bool :=
  (0 <? JES_SIGMA cfg)%float && (JES_MIN cfg <? JES_MAX cfg)%float &&
  (0 <? MET_LOGNORM_SIGMA cfg)%float && (MET_MIN cfg <? MET_MAX cfg)%float.

(** ** Systematic shift builders *)

(** One entry of an [object_shifts] dictionary. *)
Record ObjectShift := mk_ObjectShift {
  features : list string;
  select : ndarray float -> result (ndarray bool);
  apply : ndarray float -> float -> ndarray float;
  scale : float
}.

(** The [object_shifts] dictionary: keys in insertion order. *)
Definition ObjectShifts := list (string * ObjectShift).

(** The [met_shift] dictionary [{"px": px, "py": py}]. *)
Definition MetShift := list (string * float).

Definition make_jes_object_shift (jes : float) : ObjectShifts :=
  [ ("jet_pt"%string,
     {| features := ["pt"%string];
        select := fun x =>
          (col <- getitem_last x 5 ;; OK (eq_scalar col 0%float))%result;
        apply := fun v s => mul_scalar v (1.0 + s)%float;
        scale := jes |}) ].

(** ** pyarrow tables

    A table has a row count and an ordered list of named columns; names
    may repeat.  Tables and arrays are immutable values: every operation
    returns a new table and leaves its argument as it was. *)

Module Arrow.

Inductive DataType :=
| float32
| float64
| int64
| null
| other (name : string).

Inductive Value :=
| Null
| Float (f : float)
| Int (z : Z)
| Other (repr : string).

Record Array := mk_Array { type : DataType; values : list Value }.

Record Table := mk_Table { num_rows : nat; columns : list (string * Array) }.

#[global] Instance DataType_eq_dec : EqDecision DataType.
Proof. solve_decision. Defined.

(** [pa.array(xs, type=pa.float32())] on a list of Python floats. *)
Definition array_float32 (xs : list float) : Array :=
  mk_Array float32 (map (fun x => Float (PyFloat.to_float32 x)) xs).

Definition fits_int64 (z : Z) : bool :=
  ((-9223372036854775808 <=? z) && (z <=? 9223372036854775807))%Z.

(** [pa.array(xs, type=pa.int64())] on a list of Python integers: an
    integer outside the signed 64-bit range cannot be stored. *)
Definition array_int64 (xs : list Z) : result Array :=
  if forallb fits_int64 xs then OK (mk_Array int64 (map Int xs))
  else Error OverflowError.

(** [table.append_column(name, array)]: the array must have as many
    elements as the table has rows. *)
Definition append_column (t : Table) (name : string) (a : Array) : result Table :=
  if (length (values a) =? num_rows t)%nat then
    OK (mk_Table (num_rows t) (columns t ++ [(name, a)]))
  else Error ArrowInvalid.

(** [table.slice(offset, length)], for an offset and a length that are
    not negative: at most [length] rows, from row [offset] on. *)
Definition slice (t : Table) (offset length : Z) : Table :=
  let off := Z.to_nat offset in
  let len := Z.to_nat length in
  mk_Table (Nat.min len (num_rows t - off))
    (map (fun c => (c.1, mk_Array (type c.2) (take len (drop off (values c.2)))))
       (columns t)).

(** The first column with a given name. *)
Fixpoint lookup_field {V} (name : string) (fs : list (string * V)) : option V :=
  match fs with
  | [] => None
  | f :: fs' => if decide (f.1 = name) then Some f.2 else lookup_field name fs'
  end.

Definition column (t : Table) (name : string) : option Array :=
  lookup_field name (columns t).

Definition Schema := list (string * DataType).

Definition schema (t : Table) : Schema :=
  map (fun c => (c.1, type c.2)) (columns t).

Definition distinct_names (s : Schema) : bool :=
  bool_decide (NoDup (map fst s)).

(** Merging two types of one field under [promote_options="default"]:
    equal types merge, and [null] is promoted to the other type. *)
Definition merge_type (a b : DataType) : result DataType :=
  if decide (a = b) then OK a
  else if decide (a = null) then OK b
  else if decide (b = null) then OK a
  else Error ArrowInvalid.

(** Adding one field to a schema under construction: a new name is
    appended, a known name has its type merged in place. *)
Fixpoint merge_field (f : string * DataType) (acc : Schema) : result Schema :=
  match acc with
  | [] => OK [f]
  | g :: acc' =>
      if decide (g.1 = f.1) then
        (ty <- merge_type g.2 f.2 ;; OK ((g.1, ty) :: acc'))%result
      else
        (rest <- merge_field f acc' ;; OK (g :: rest))%result
  end.

Fixpoint merge_schema (s : Schema) (acc : Schema) : result Schema :=
  match s with
  | [] => OK acc
  | f :: s' => (acc' <- merge_field f acc ;; merge_schema s' acc')%result
  end.

Fixpoint merge_schemas (ss : list Schema) (acc : Schema) : result Schema :=
  match ss with
  | [] => OK acc
  | s :: ss' => (acc' <- merge_schema s acc ;; merge_schemas ss' acc')%result
  end.

(** [pa.unify_schemas]: at least one schema, none with a repeated field
    name. *)
Definition unify_schemas (ss : list Schema) : result Schema :=
  match ss with
  | [] => Error ArrowInvalid
  | s :: ss' =>
      if forallb distinct_names ss then merge_schemas ss' s
      else Error ArrowInvalid
  end.

(** The rows a table contributes to a field of the unified schema: its
    own column of that name, or nulls when it has none. *)
Definition column_or_nulls (name : string) (t : Table) : list Value :=
  match column t name with
  | Some a => values a
  | None => replicate (num_rows t) Null
  end.

(** [pa.concat_tables(tables, promote_options="default")]: the schemas
    are unified by field name and the rows are laid out table after
    table. *)
Definition concat_tables (ts : list Table) : result Table :=
  (sch <- unify_schemas (map schema ts) ;;
   OK (mk_Table (sum_list (map num_rows ts))
         (map (fun f => (f.1, mk_Array f.2 (concat (map (column_or_nulls f.1) ts))))
            sch)))%result.

End Arrow.
Import Arrow.

(** ** Bookkeeping columns *)

Definition add_syst_columns (table : Table) (jes met_px met_py : float) (tag : Z)
  : result Table :=
  let n := num_rows table in
  (table <- append_column table "syst_jes" (array_float32 (replicate n jes)) ;;
   table <- append_column table "syst_met_px" (array_float32 (replicate n met_px)) ;;
   table <- append_column table "syst_met_py" (array_float32 (replicate n met_py)) ;;
   tags <- array_int64 (replicate n tag) ;;
   table <- append_column table "syst_tag" tags ;;
   OK table)%result.

(** The four columns that [add_syst_columns] appends to a table of [n]
    rows. *)
Definition syst_columns (n : nat) (jes met_px met_py : float) (tag : Z)
  : list (string * Array) :=
  [ ("syst_jes"%string,
     mk_Array float32 (replicate n (Float (PyFloat.to_float32 jes))));
    ("syst_met_px"%string,
     mk_Array float32 (replicate n (Float (PyFloat.to_float32 met_px))));
    ("syst_met_py"%string,
     mk_Array float32 (replicate n (Float (PyFloat.to_float32 met_py))));
    ("syst_tag"%string, mk_Array int64 (replicate n (Int tag))) ].

(** ** The world of a run

    A run has three pieces of state: the process-wide random source of
    numpy, whatever state the systematics applier keeps, and the files
    on disk. *)

Record World (Rng App : Type) := mk_World {
  rng : Rng;
  applier : App;
  disk : gmap string Table
}.
Arguments mk_World {Rng App} rng applier disk.
Arguments rng {Rng App} w.
Arguments applier {Rng App} w.
Arguments disk {Rng App} w.

Inductive Family := JES_only | MET_only | JES_MET.

Definition output_path (fam : Family) : string :=
  match fam with
  | JES_only => OUTPUT_JES_ONLY
  | MET_only => OUTPUT_MET_ONLY
  | JES_MET => OUTPUT_JES_MET
  end.

(** [range(n)]. *)
Definition range (n : Z) : list Z := map Z.of_nat (seq 0 (Z.to_nat n)).

Section Pipeline.

Context {Rng App : Type}.

(** [np.random.normal(loc, scale)] and [np.random.lognormal(mean, sigma)]:
    one draw from the random source, which moves to its next state. *)
Variable np_random_normal : float -> float -> Rng -> result float * Rng.
Variable np_random_lognormal : float -> float -> Rng -> result float * Rng.

(** [SystematicsApplier().apply(base, object_shifts=..., met_shift=...,
    recompute_globals=...)]. *)
Variable syst_apply :
  Table -> option ObjectShifts -> option MetShift -> bool -> App -> result Table * App.

Variable cfg : Config.

(** A computation reads and updates the world, and returns a value or
    raises; the world reached when it raises is kept. *)
Definition M (A : Type) : Type := World Rng App -> result A * World Rng App.

Definition ret {A} (a : A) : M A := fun w => (OK a, w).

Definition bind {A B} (m : M A) (k : A -> M B) : M B :=
  fun w =>
    match m w with
    | (OK a, w') => k a w'
    | (Error e, w') => (Error e, w')
    end.

Definition lift {A} (r : result A) : M A := fun w => (r, w).

Notation "x <- m ;; k" := (bind m (fun x => k))
  (at level 100, m at next level, right associativity).

Definition random_normal (loc scale : float) : M float :=
  fun w =>
    let '(r, g) := np_random_normal loc scale (rng w) in
    (r, mk_World g (applier w) (disk w)).

Definition random_lognormal (mean sigma : float) : M float :=
  fun w =>
    let '(r, g) := np_random_lognormal mean sigma (rng w) in
    (r, mk_World g (applier w) (disk w)).

Definition SystematicsApplier_apply (base : Table)
    (object_shifts : option ObjectShifts) (met_shift : option MetShift)
    (recompute_globals : bool) : M Table :=
  fun w =>
    let '(r, s) :=
      syst_apply base object_shifts met_shift recompute_globals (applier w) in
    (r, mk_World (rng w) s (disk w)).

(** [pq.read_table(path)] and [pq.write_table(table, path)]. *)
Definition read_table (path : string) : M Table :=
  fun w =>
    match disk w !! path with
    | Some t => (OK t, w)
    | None => (Error FileNotFoundError, w)
    end.

Definition write_table (t : Table) (path : string) : M unit :=
  fun w => (OK tt, mk_World (rng w) (applier w) (<[path := t]> (disk w))).

(** *** Sampling utilities

    [float(...)] of a numpy binary64 scalar is the same binary64 number. *)

Definition sample_jes : M float :=
  jes <- random_normal 0.0 (JES_SIGMA cfg) ;;
  ret (clip jes (JES_MIN cfg) (JES_MAX cfg)).

Definition sample_met : M (float * float) :=
  px <- random_lognormal (MET_LOGNORM_MEAN cfg) (MET_LOGNORM_SIGMA cfg) ;;
  py <- random_lognormal (MET_LOGNORM_MEAN cfg) (MET_LOGNORM_SIGMA cfg) ;;
  let px := clip px (MET_MIN cfg) (MET_MAX cfg) in
  let py := clip py (MET_MIN cfg) (MET_MAX cfg) in
  ret (px, py).

(** *** Main *)

(** [for i in xs: tables.append(body(i))], with [tables] the list
    collected so far. *)
Fixpoint for_each (xs : list Z) (body : Z -> M Table) (tables : list Table)
  : M (list Table) :=
  match xs with
  | [] => ret tables
  | i :: xs' =>
      shifted <- body i ;;
      for_each xs' body (tables ++ [shifted])
  end.

(** The body of the JES-only loop. *)
Definition jes_only_cycle (base : Table) (i : Z) : M Table :=
  jes <- sample_jes ;;
  shifted <- SystematicsApplier_apply base
               (Some (make_jes_object_shift jes)) None true ;;
  shifted <- lift (add_syst_columns shifted jes 0.0 0.0 i) ;;
  ret shifted.

(** The body of the MET-only loop. *)
Definition met_only_cycle (base : Table) (i : Z) : M Table :=
  p <- sample_met ;;
  let '(px, py) := p in
  shifted <- SystematicsApplier_apply base None
               (Some [("px"%string, px); ("py"%string, py)]) true ;;
  shifted <- lift (add_syst_columns shifted 0.0 px py i) ;;
  ret shifted.

(** The body of the JES+MET loop. *)
Definition jes_met_cycle (base : Table) (i : Z) : M Table :=
  jes <- sample_jes ;;
  p <- sample_met ;;
  let '(px, py) := p in
  shifted <- SystematicsApplier_apply base (Some (make_jes_object_shift jes))
               (Some [("px"%string, px); ("py"%string, py)]) true ;;
  shifted <- lift (add_syst_columns shifted jes px py i) ;;
  ret shifted.

(** The applier object [syst] that [main] creates is the applier
    component of the world. *)
Definition main : M unit :=
  base <- read_table INPUT_PARQUET ;;
  let base := slice base 0 (BASE_SLICE cfg) in
  (* JES only *)
  tables_jes_only <-
    for_each (range (N_DATASETS_PER_TYPE cfg)) (jes_only_cycle base) [] ;;
  table_jes_only <- lift (concat_tables tables_jes_only) ;;
  _ <- write_table table_jes_only OUTPUT_JES_ONLY ;;
  (* MET only *)
  tables_met_only <-
    for_each (range (N_DATASETS_PER_TYPE cfg)) (met_only_cycle base) [] ;;
  table_met_only <- lift (concat_tables tables_met_only) ;;
  _ <- write_table table_met_only OUTPUT_MET_ONLY ;;
  (* JES + MET *)
  tables_jes_met <-
    for_each (range (N_DATASETS_PER_TYPE cfg)) (jes_met_cycle base) [] ;;
  table_jes_met <- lift (concat_tables tables_jes_met) ;;
  _ <- write_table table_jes_met OUTPUT_JES_MET ;;
  ret tt.

(** *** The three families, seen uniformly

    The three blocks of [main] differ only in the loop body and in the
    output name.  [cycle] selects the body of a family, [family_tables]
    is its loop and [generate] its whole block. *)

Definition cycle (fam : Family) (base : Table) (i : Z) : M Table :=
  match fam with
  | JES_only => jes_only_cycle base i
  | MET_only => met_only_cycle base i
  | JES_MET => jes_met_cycle base i
  end.

Definition family_tables (fam : Family) (base : Table) : M (list Table) :=
  for_each (range (N_DATASETS_PER_TYPE cfg)) (cycle fam base) [].

Definition generate (fam : Family) (base : Table) : M unit :=
  tables <- family_tables fam base ;;
  table <- lift (concat_tables tables) ;;
  write_table table (output_path fam).

(** The blocks of [main] for a list of families, one after the other. *)
Fixpoint run_families (fams : list Family) (base : Table) : M unit :=
  match fams with
  | [] => ret tt
  | fam :: fams' =>
      _ <- generate fam base ;;
      run_families fams' base
  end.

(** *** Notions used to state the properties *)

(** A computation that leaves the files on disk as they are. *)
Definition keeps_disk {A} (m : M A) : Prop :=
  forall w, disk (snd (m w)) = disk w.

(** A computation whose outcome and whose use of the random source are
    fixed by the state of the random source it starts from. *)
Definition replays {A} (m : M A) : Prop :=
  forall w1 w2, rng w1 = rng w2 ->
    fst (m w1) = fst (m w2) /\ rng (snd (m w1)) = rng (snd (m w2)).

(** Two worlds hold the same table at each of the given paths. *)
Definition agree (paths : list string) (w1 w2 : World Rng App) : Prop :=
  forall p, In p paths ->
    exists T, disk w1 !! p = Some T /\ disk w2 !! p = Some T.

End Pipeline.

(** The table of cycle [i] of a family, as the bookkeeping describes it:
    a table followed by the four bookkeeping columns, each constant over
    the rows, with tag [i]; the MET columns hold 0.0 in the JES-only
    family and the JES column holds 0.0 in the MET-only family. *)
Definition annotated (fam : Family) (i : Z) (t : Table) : Prop :=
  exists (shifted : Table) (jes px py : float),
    num_rows t = num_rows shifted /\
    columns t =
      columns shifted ++
      [ ("syst_jes"%string, mk_Array float32 (replicate (num_rows t) (Float jes)));
        ("syst_met_px"%string, mk_Array float32 (replicate (num_rows t) (Float px)));
        ("syst_met_py"%string, mk_Array float32 (replicate (num_rows t) (Float py)));
        ("syst_tag"%string, mk_Array int64 (replicate (num_rows t) (Int i))) ] /\
    (fam = JES_only -> px = 0%float /\ py = 0%float) /\
    (fam = MET_only -> jes = 0%float).


(** ** Test doubles

    Stand-ins for the two external collaborators, used to run the
    pipeline on concrete inputs: a random source that replays a tape of
    prepared draws, and appliers that return a copy of the base table. *)

Module Double.

(** A random source that hands out the values of a tape in order. *)
Definition tape_draw (_ _ : float) (tape : list float) : result float * list float :=
  match tape with
  | x :: tape' => (OK x, tape')
  | [] => (Error (ExternalError "tape exhausted"), [])
  end.

(** An applier without state that returns the base table as it is. *)
Definition copy_apply (base : Table) (_ : option ObjectShifts) (_ : option MetShift)
    (_ : bool) (s : unit) : result Table * unit :=
  (OK base, s).

(** An applier that counts its calls and returns the base table. *)
Definition counting_apply (base : Table) (_ : option ObjectShifts)
    (_ : option MetShift) (_ : bool) (calls : nat) : result Table * nat :=
  (OK base, S calls).


(** A base dataset of three rows. *)
Definition base_table : Table :=
  mk_Table 3
    [ ("pt"%string, mk_Array float32 [Float 10.0; Float 20.0; Float 30.0]);
      ("type"%string, mk_Array int64 [Int 0; Int 1; Int 0]) ].

(** A working slice without rows. *)
Definition empty_table : Table :=
  mk_Table 0
    [ ("pt"%string, mk_Array float32 []);
      ("type"%string, mk_Array int64 []) ].

Definition base_disk : gmap string Table := {[ INPUT_PARQUET := base_table ]}.

(** The configuration of the script with two cycles per family. *)
Definition two_cycles : Config :=
  {| N_DATASETS_PER_TYPE := 2;
     BASE_SLICE := 160000;
     JES_SIGMA := 0.01;
     JES_MIN := -0.10;
     JES_MAX := 0.10;
     MET_LOGNORM_MEAN := 0.0;
     MET_LOGNORM_SIGMA := 1.0;
     MET_MIN := 0.0;
     MET_MAX := 5.0 |}.

(** A configuration whose JES clipping interval is inverted. *)
Definition inverted_jes : Config :=
  {| N_DATASETS_PER_TYPE := 2;
     BASE_SLICE := 160000;
     JES_SIGMA := 0.01;
     JES_MIN := 0.10;
     JES_MAX := -0.10;
     MET_LOGNORM_MEAN := 0.0;
     MET_LOGNORM_SIGMA := 1.0;
     MET_MIN := 0.0;
     MET_MAX := 5.0 |}.

(** Twelve prepared draws: enough for the three families at two cycles. *)
Definition tape : list float :=
  [0.05; -0.2; 1.0; 0.5; 2.0; 1.5; 0.01; 7.0; 0.25; 0.0; 3.0; 0.75]%float.

Definition world0 : World (list float) unit := mk_World tape tt base_disk.

(** A world whose random source hands out 0.5 and then 7.0. *)
Definition sampler_world : World (list float) unit :=
  mk_World [0.5; 7.0]%float tt base_disk.

(** A world whose random source has nothing to hand out. *)
Definition dry_world : World (list float) unit := mk_World [] tt base_disk.


(** A world whose applier has already counted [calls] calls. *)
Definition counting_world (calls : nat) : World (list float) nat :=
  mk_World tape calls base_disk.

(** A [pt]-like array of shape (2, 7): two objects with seven features
    each, the first of type 0 and the second of type 1. *)
Definition objects : ndarray float :=
  mk_ndarray [2; 7]
    [ 10.0; 0.1; 0.2; 0.3; 0.4; 0.0; 1.0;
      20.0; 0.1; 0.2; 0.3; 0.4; 1.0; 1.0 ]%float.

End Double.

(** ** Further notions

    Notions used to state properties of the code beyond the ones above. *)

(** *** The order of floats

    Every float that is not NaN has a key, a triple of integers, such
    that the comparison of two floats is the lexicographic comparison of
    their keys: the sign class first (negative infinity, negative, zero,
    positive, positive infinity), then the exponent and the mantissa, both
    negated for a negative number. *)

Module FloatOrder.

Definition key (x : spec_float) : Z * Z * Z :=
  match x with
  | S754_zero _ => (0, 0, 0)%Z
  | S754_infinity s => (if s then (-2)%Z else 2%Z, 0%Z, 0%Z)
  | S754_nan => (0, 0, 0)%Z
  | S754_finite s m e =>
      if s then ((-1)%Z, (- e)%Z, Z.neg m) else (1%Z, e, Z.pos m)
  end.

Definition lexcmp (a b : Z * Z * Z) : comparison :=
  match (a.1.1 ?= b.1.1)%Z with
  | Eq =>
      match (a.1.2 ?= b.1.2)%Z with
      | Eq => (a.2 ?= b.2)%Z
      | c => c
      end
  | c => c
  end.

Definition klt (a b : Z * Z * Z) : Prop :=
  (a.1.1 < b.1.1)%Z \/
  (a.1.1 = b.1.1 /\ ((a.1.2 < b.1.2)%Z \/ (a.1.2 = b.1.2 /\ (a.2 < b.2)%Z))).

Definition fkey (x : float) : Z * Z * Z := key (Prim2SF x).

(** A float is a number when it is not NaN. *)
Definition number (x : float) : Prop := Prim2SF x <> S754_nan.

End FloatOrder.

(** *** Saturation

    [r] is [z] cut to the interval from [lo] to [hi]: [z] itself strictly
    inside, the bound at or beyond a bound. *)
Definition saturated (lo hi z r : float) : Prop :=
  ((lo <? z)%float = true -> (z <? hi)%float = true -> r = z) /\
  ((z <=? lo)%float = true -> r = lo) /\
  ((hi <=? z)%float = true -> r = hi).

(** [r] lies in the closed interval from [lo] to [hi]. *)
Definition within (lo hi r : float) : Prop :=
  (lo <=? r)%float = true /\ (r <=? hi)%float = true.

(** *** What a cycle hands to the applier and what it records *)

Definition object_shifts_of (fam : Family) (jes : float) : option ObjectShifts :=
  match fam with
  | MET_only => None
  | _ => Some (make_jes_object_shift jes)
  end.

Definition met_shift_of (fam : Family) (px py : float) : option MetShift :=
  match fam with
  | JES_only => None
  | _ => Some [("px"%string, px); ("py"%string, py)]
  end.

(** The three float parameters that a cycle passes to [add_syst_columns]. *)
Definition recorded (fam : Family) (jes px py : float) : float * float * float :=
  match fam with
  | JES_only => (jes, 0.0, 0.0)%float
  | MET_only => (0.0%float, px, py)
  | JES_MET => (jes, px, py)
  end.

(** A table followed by the bookkeeping columns for three recorded
    parameters and a tag. *)
Definition annotate_with (shifted : Table) (rec : float * float * float) (tag : Z)
  : Table :=
  mk_Table (num_rows shifted)
    (columns shifted ++
     syst_columns (num_rows shifted) rec.1.1 rec.1.2 rec.2 tag).

Definition bookkeeping_names : list string :=
  ["syst_jes"; "syst_met_px"; "syst_met_py"; "syst_tag"]%string.

Definition bookkeeping_schema : Schema :=
  [ ("syst_jes"%string, float32); ("syst_met_px"%string, float32);
    ("syst_met_py"%string, float32); ("syst_tag"%string, int64) ].

(** *** Further test doubles *)

Module Rig.

(** A random source without state that always hands out the same value. *)
Definition steady_draw (x : float) (_ _ : float) (g : unit) : result float * unit :=
  (OK x, g).

(** An applier that returns a table which already carries a column named
    [syst_tag]. *)
Definition tagged_apply (base : Table) (_ : option ObjectShifts)
    (_ : option MetShift) (_ : bool) (s : unit) : result Table * unit :=
  (OK (mk_Table (num_rows base)
         (columns base ++
          [("syst_tag"%string, mk_Array int64 (replicate (num_rows base) (Int 0)))])),
   s).

(** A world with a stateless random source and applier. *)
Definition steady_world : World unit unit := mk_World tt tt Double.base_disk.

(** A world whose disk has no base dataset but holds another file. *)
Definition no_input_world : World (list float) unit :=
  mk_World Double.tape tt {[ "notes.txt"%string := Double.base_table ]}.

(** The configuration of the script without any cycle. *)
Definition no_cycles : Config :=
  {| N_DATASETS_PER_TYPE := 0;
     BASE_SLICE := 160000;
     JES_SIGMA := 0.01;
     JES_MIN := -0.10;
     JES_MAX := 0.10;
     MET_LOGNORM_MEAN := 0.0;
     MET_LOGNORM_SIGMA := 1.0;
     MET_MIN := 0.0;
     MET_MAX := 5.0 |}.

(** The configuration of the script with two cycles and a working slice
    of two rows. *)
Definition two_rows : Config :=
  {| N_DATASETS_PER_TYPE := 2;
     BASE_SLICE := 2;
     JES_SIGMA := 0.01;
     JES_MIN := -0.10;
     JES_MAX := 0.10;
     MET_LOGNORM_MEAN := 0.0;
     MET_LOGNORM_SIGMA := 1.0;
     MET_MIN := 0.0;
     MET_MAX := 5.0 |}.

(** Arrays of shape (2, 5) and of shape (), too short for index 5. *)
Definition short_objects : ndarray float :=
  mk_ndarray [2; 5] [ 10.0; 0.1; 0.2; 0.3; 0.4; 20.0; 0.1; 0.2; 0.3; 0.4 ]%float.

Definition scalar_object : ndarray float := mk_ndarray [] [10.0%float].

End Rig.

(** * Part II: properties *)

(** ** Floats *)

Module PyFloatFacts.

Lemma shr_1_pow2 (m : positive) :
  SpecFloat.iter_pos shr_1 52
    (Build_shr_record (Z.pos (4503599627370496 * m)) false false)
  = Build_shr_record (Z.pos m) false false.
Proof. reflexivity. Qed.

Lemma digits2_pow2 (m : positive) :
  Zdigits2 (Z.pos (4503599627370496 * m)) = (Z.pos (digits2_pos m) + 52)%Z.
Proof. cbv [Pos.mul]. cbn [Zdigits2 digits2_pos]. lia. Qed.

(** Multiplying a binary64 number by 1.0 returns it: the product of the
    mantissas is the mantissa shifted by 52 bits, which rounding undoes
    without loss. *)
Lemma SFmul_one_r (x : spec_float) :
  valid_binary x = true -> SF64mul x (Prim2SF 1) = x.
Proof.
  destruct x as [s | s | | s m e]; intros Hv; try reflexivity.
  - cbn. now destruct s.
  - cbn. now destruct s.
  - cbn in Hv. unfold bounded, canonical_mantissa in Hv.
    apply andb_prop in Hv as [Hc Hb].
    apply Z.eqb_eq in Hc.
    change (Prim2SF 1) with (S754_finite false 4503599627370496 (-52)).
    unfold SF64mul, SFmul.
    rewrite xorb_false_r, Pos.mul_comm.
    unfold binary_round_aux, shr_fexp.
    rewrite digits2_pow2.
    replace (Z.pos (digits2_pos m) + 52 + (e + -52))%Z
      with (Z.pos (digits2_pos m) + e)%Z by lia.
    rewrite Hc.
    replace (e - (e + -52))%Z with 52%Z by lia.
    cbn [shr shr_record_of_loc]. rewrite shr_1_pow2.
    cbn [shr_m loc_of_shr_record round_nearest_even Zdigits2].
    replace (e + -52 + 52)%Z with e by lia.
    rewrite Hc, Z.sub_diag.
    cbn [shr shr_m shr_record_of_loc].
    now rewrite Hb.
Qed.

Lemma mul_one_r (x : float) : (x * 1 = x)%float.
Proof.
  apply Prim2SF_inj. rewrite mul_spec.
  apply SFmul_one_r, Prim2SF_valid.
Qed.

Lemma SFcompare_refl (x : spec_float) :
  x <> S754_nan -> SFcompare x x = Some Eq.
Proof.
  destruct x as [s | s | | s m e]; intros Hx; try done.
  - now destruct s.
  - cbn. destruct s; rewrite Z.compare_refl;
      change (Pos.compare_cont Eq m m) with (m ?= m)%positive;
      now rewrite Pos.compare_refl.
Qed.

Lemma SFcompare_not_nan (x y : spec_float) (c : comparison) :
  SFcompare x y = Some c -> x <> S754_nan /\ y <> S754_nan.
Proof.
  destruct x, y; cbn; intros H; split; congruence.
Qed.

Lemma ltb_leb (x y : float) : (x <? y)%float = true -> (x <=? y)%float = true.
Proof.
  rewrite ltb_spec, leb_spec. unfold SFltb, SFleb.
  now destruct (SFcompare _ _) as [[]|].
Qed.

Lemma leb_refl_l (x y : float) : (x <=? y)%float = true -> (x <=? x)%float = true.
Proof.
  rewrite !leb_spec. unfold SFleb.
  destruct (SFcompare (Prim2SF x) (Prim2SF y)) as [c|] eqn:Hc; [|done].
  apply SFcompare_not_nan in Hc as [Hx _].
  now rewrite SFcompare_refl.
Qed.

Lemma leb_refl_r (x y : float) : (x <=? y)%float = true -> (y <=? y)%float = true.
Proof.
  rewrite !leb_spec. unfold SFleb.
  destruct (SFcompare (Prim2SF x) (Prim2SF y)) as [c|] eqn:Hc; [|done].
  apply SFcompare_not_nan in Hc as [_ Hy].
  now rewrite SFcompare_refl.
Qed.

Lemma leb_isnan_l (x y : float) : (x <=? y)%float = true -> PyFloat.isnan x = false.
Proof.
  intros H. unfold PyFloat.isnan. apply negb_false_iff.
  revert H. rewrite leb_spec, FloatAxioms.eqb_spec. unfold SFleb, SFeqb.
  destruct (SFcompare (Prim2SF x) (Prim2SF y)) as [c|] eqn:Hc; [|done].
  apply SFcompare_not_nan in Hc as [Hx _].
  now rewrite SFcompare_refl.
Qed.

End PyFloatFacts.

(** ** numpy *)

Module NumpyFacts.

Import PyFloatFacts.

(** Clipping a number to an interval [lo <= hi] lands in the interval. *)
Lemma clip_between (a lo hi : float) :
  PyFloat.isnan a = false ->
  (lo <=? hi)%float = true ->
  (lo <=? clip a lo hi)%float = true /\ (clip a lo hi <=? hi)%float = true.
Proof.
  intros Ha Hlh.
  pose proof (leb_refl_l _ _ Hlh) as Hll.
  pose proof (leb_refl_r _ _ Hlh) as Hhh.
  pose proof (leb_isnan_l _ _ Hlh) as Hnl.
  unfold clip, maximum, PyFloat.gtb. rewrite Ha.
  destruct (lo <? a)%float eqn:Hla; unfold minimum.
  - rewrite Ha. destruct (a <? hi)%float eqn:Hah.
    + split; now apply ltb_leb.
    + now split.
  - rewrite Hnl. destruct (lo <? hi)%float; now split.
Qed.

Lemma take_along_last_spec {A} (k i : nat) (rows : nat) (d : list A) :
  i < k -> rows * k <= length d ->
  exists l, take_along_last k i rows d = OK l /\ length l = rows /\
    forall r, r < rows -> l !! r = d !! (r * k + i).
Proof.
  intros Hi. revert d. induction rows as [|rows IH]; intros d Hlen.
  - exists []. split; [done|]. split; [done|]. intros r Hr. lia.
  - cbn [take_along_last].
    destruct (lookup_lt_is_Some_2 d i) as [a Ha]; [lia|]. rewrite Ha.
    destruct (IH (drop k d)) as (l & Hl & Hlen' & Hnth).
    { rewrite length_drop. lia. }
    rewrite Hl. cbn. exists (a :: l). split; [done|]. split; [cbn; lia|].
    intros [|r] Hr; [done|]. cbn.
    rewrite Hnth by lia. rewrite lookup_drop. f_equal. lia.
Qed.

Lemma last_snoc {A} (l : list A) (x : A) : last (l ++ [x]) = Some x.
Proof. induction l as [|y [|z l] IH]; done. Qed.

Lemma size_snoc (lead : list nat) (k : nat) : size (lead ++ [k]) = size lead * k.
Proof.
  unfold size. induction lead as [|n lead IH]; cbn; [lia|].
  rewrite IH. lia.
Qed.

(** [x[..., i]] on a well-formed array whose last axis is longer than [i]:
    one element per row, the one at position [i] of the row. *)
Lemma getitem_last_spec {A} (x : ndarray A) (lead : list nat) (k i : nat) :
  shape x = lead ++ [k] -> well_formed x -> i < k ->
  exists d, getitem_last x i = OK (mk_ndarray lead d) /\ length d = size lead /\
    forall r, r < size lead -> d !! r = data x !! (r * k + i).
Proof.
  intros Hsh Hwf Hi. unfold getitem_last, well_formed in *.
  rewrite Hsh, last_snoc, removelast_last.
  destruct (Nat.ltb_spec i k) as [_|]; [|lia].
  rewrite Hsh, size_snoc in Hwf.
  destruct (take_along_last_spec k i (size lead) (data x)) as (d & Hd & Hlen & Hnth);
    [done|lia|].
  rewrite Hd. cbn. by exists d.
Qed.

End NumpyFacts.

(** ** The JES shift description *)

(** C1: for every [jes], [make_jes_object_shift jes] is a dictionary with
    the single entry [jet_pt]; the entry targets the feature [pt], carries
    [jes] as its scale, its transformation called with that scale maps
    every value [v] of an array to [v * (1 + jes)], and on an array whose
    last axis has more than five elements its selection marks a row
    exactly when the element at index 5 of the row equals 0. *)
Theorem make_jes_object_shift_spec (jes : float) :
  exists d : ObjectShift,
    make_jes_object_shift jes = [("jet_pt"%string, d)] /\
    features d = ["pt"%string] /\
    scale d = jes /\
    (forall v : ndarray float,
        shape (apply d v (scale d)) = shape v /\
        length (data (apply d v (scale d))) = length (data v) /\
        forall (i : nat) (a : float), data v !! i = Some a ->
          data (apply d v (scale d)) !! i = Some (a * (1 + jes))%float) /\
    (forall (x : ndarray float) (lead : list nat) (k : nat),
        shape x = lead ++ [k] -> well_formed x -> 5 < k ->
        exists m : ndarray bool,
          select d x = OK m /\ shape m = lead /\ length (data m) = size lead /\
          forall (r : nat) (a : float), r < size lead ->
            data x !! (r * k + 5) = Some a ->
            data m !! r = Some (a =? 0)%float).
Proof.
  eexists. split; [reflexivity|]. cbn [features scale apply select].
  repeat split.
  - unfold mul_scalar. cbn. by rewrite length_map.
  - intros i a Ha. unfold mul_scalar. cbn. by rewrite list_lookup_fmap, Ha.
  - intros x lead k Hsh Hwf Hk.
    destruct (NumpyFacts.getitem_last_spec x lead k 5 Hsh Hwf Hk)
      as (d & Hd & Hlen & Hnth).
    rewrite Hd. cbn. eexists. split; [reflexivity|].
    cbn. rewrite length_map. repeat split; [done|].
    intros r a Hr Ha. rewrite list_lookup_fmap, Hnth, Ha by done. done.
Qed.

(** The shift description at [jes = 0.05] on two objects of seven
    features: the first (type 0) is selected, the second is not. *)
Lemma make_jes_object_shift_spec_witness :
  exists d : ObjectShift,
    make_jes_object_shift 0.05 = [("jet_pt"%string, d)] /\
    features d = ["pt"%string] /\
    scale d = 0.05%float /\
    data (apply d Double.objects (scale d)) !! 0 = Some (10.0 * (1 + 0.05))%float /\
    exists m : ndarray bool,
      select d Double.objects = OK m /\ shape m = [2] /\
      data m !! 0 = Some true /\ data m !! 1 = Some false.
Proof.
  destruct (make_jes_object_shift_spec 0.05) as (d & Hd & Hf & Hs & Ha & Hsel).
  exists d. repeat split; try assumption.
  - destruct (Ha Double.objects) as (_ & _ & Hv). by apply Hv.
  - destruct (Hsel Double.objects [2] 7) as (m & Hm & Hsh & _ & Hrow);
      [reflexivity|reflexivity|lia|].
    exists m. repeat split; try assumption.
    + by apply (Hrow 0 0%float); [cbn; lia|].
    + by apply (Hrow 1 1%float); [cbn; lia|].
Defined.

(** C9: a JES shift of zero is the identity: the transformation of every
    entry of [make_jes_object_shift 0.0] (there is one, [jet_pt]), called
    with the scale of the entry, returns every array as it is. *)
Theorem jes_zero_shift_identity :
  Forall (fun entry : string * ObjectShift =>
            forall v : ndarray float, apply entry.2 v (scale entry.2) = v)
    (make_jes_object_shift 0.0).
Proof.
  repeat constructor. intros v. cbn [apply scale snd].
  unfold mul_scalar. destruct v as [sh xs]. cbn. f_equal.
  change (1 + 0)%float with 1%float.
  induction xs as [|a xs IH]; [done|].
  cbn. by rewrite PyFloatFacts.mul_one_r, IH.
Qed.

(** ** The bookkeeping annotator *)

Module ArrowFacts.

Lemma map_replicate {A B} (f : A -> B) (n : nat) (x : A) :
  map f (replicate n x) = replicate n (f x).
Proof. induction n as [|n IH]; [done|]. cbn. by rewrite IH. Qed.

Lemma array_float32_replicate (n : nat) (x : float) :
  array_float32 (replicate n x)
  = mk_Array float32 (replicate n (Float (PyFloat.to_float32 x))).
Proof. unfold array_float32. by rewrite map_replicate. Qed.

Lemma array_int64_replicate (n : nat) (z : Z) :
  n = 0 \/ fits_int64 z = true ->
  array_int64 (replicate n z) = OK (mk_Array int64 (replicate n (Int z))).
Proof.
  intros H. unfold array_int64.
  assert (forallb fits_int64 (replicate n z) = true) as ->.
  { destruct H as [-> | H]; [done|].
    induction n as [|n IH]; [done|]. cbn. by rewrite H, IH. }
  by rewrite map_replicate.
Qed.

Lemma array_int64_inv (n : nat) (z : Z) (a : Array) :
  array_int64 (replicate n z) = OK a ->
  a = mk_Array int64 (replicate n (Int z)).
Proof.
  unfold array_int64. destruct (forallb _ _); [|done].
  intros [= <-]. by rewrite map_replicate.
Qed.

Lemma append_column_replicate (t : Table) (name : string) (ty : DataType)
    (v : Value) (n : nat) :
  num_rows t = n ->
  append_column t name (mk_Array ty (replicate n v))
  = OK (mk_Table n (columns t ++ [(name, mk_Array ty (replicate n v))])).
Proof.
  intros <-. unfold append_column. cbn [values]. rewrite length_replicate.
  by rewrite Nat.eqb_refl.
Qed.

(** [add_syst_columns] fails only when the tag cannot be stored. *)
Lemma add_syst_columns_tags (table : Table) (jes met_px met_py : float) (tag : Z) :
  add_syst_columns table jes met_px met_py tag
  = (tags <- array_int64 (replicate (num_rows table) tag) ;;
     OK (mk_Table (num_rows table)
           (columns table
              ++ [ ("syst_jes"%string,
                    mk_Array float32
                      (replicate (num_rows table) (Float (PyFloat.to_float32 jes))));
                   ("syst_met_px"%string,
                    mk_Array float32
                      (replicate (num_rows table) (Float (PyFloat.to_float32 met_px))));
                   ("syst_met_py"%string,
                    mk_Array float32
                      (replicate (num_rows table) (Float (PyFloat.to_float32 met_py))));
                   ("syst_tag"%string, tags) ])))%result.
Proof.
  unfold add_syst_columns. rewrite !array_float32_replicate.
  rewrite (append_column_replicate table) by done. cbn [rbind].
  rewrite (append_column_replicate (mk_Table _ _)) by done. cbn [rbind].
  rewrite (append_column_replicate (mk_Table _ _)) by done. cbn [rbind].
  destruct (array_int64 _) as [tags|e] eqn:Htags; [|done].
  apply array_int64_inv in Htags as ->. cbn [rbind].
  rewrite (append_column_replicate (mk_Table _ _)) by done. cbn [rbind columns].
  by rewrite <- !app_assoc.
Qed.

Lemma add_syst_columns_OK (table : Table) (jes met_px met_py : float) (tag : Z) :
  num_rows table = 0 \/ fits_int64 tag = true ->
  add_syst_columns table jes met_px met_py tag
  = OK (mk_Table (num_rows table)
          (columns table ++ syst_columns (num_rows table) jes met_px met_py tag)).
Proof.
  intros H. rewrite add_syst_columns_tags, array_int64_replicate by done. done.
Qed.

Lemma add_syst_columns_inv (table table' : Table) (jes met_px met_py : float)
    (tag : Z) :
  add_syst_columns table jes met_px met_py tag = OK table' ->
  table' = mk_Table (num_rows table)
             (columns table ++ syst_columns (num_rows table) jes met_px met_py tag).
Proof.
  rewrite add_syst_columns_tags.
  destruct (array_int64 _) as [tags|e] eqn:Htags; [|done].
  apply array_int64_inv in Htags as ->. by intros [= <-].
Qed.

End ArrowFacts.

(** C4, amended: for every input table and parameters, provided the tag
    fits in a signed 64-bit integer or the table has no rows,
    [add_syst_columns] returns a table with the row count of the input
    whose columns are the columns of the input, unchanged and in their
    order, followed by exactly four columns: [syst_jes], [syst_met_px]
    and [syst_met_py] of type [float32] and [syst_tag] of type [int64],
    each holding one value on every row: the parameter rounded to a
    32-bit float for the first three, the tag for the last.  The input
    table is a value of the model and is the same before and after. *)
Theorem add_syst_columns_spec
    (table : Table) (jes met_px met_py : float) (tag : Z) :
  num_rows table = 0 \/ fits_int64 tag = true ->
  exists table' : Table,
    add_syst_columns table jes met_px met_py tag = OK table' /\
    num_rows table' = num_rows table /\
    columns table' =
      columns table ++
      [ ("syst_jes"%string,
         mk_Array float32
           (replicate (num_rows table) (Float (PyFloat.to_float32 jes))));
        ("syst_met_px"%string,
         mk_Array float32
           (replicate (num_rows table) (Float (PyFloat.to_float32 met_px))));
        ("syst_met_py"%string,
         mk_Array float32
           (replicate (num_rows table) (Float (PyFloat.to_float32 met_py))));
        ("syst_tag"%string,
         mk_Array int64 (replicate (num_rows table) (Int tag))) ].
Proof.
  intros H. eexists. split; [by apply ArrowFacts.add_syst_columns_OK|]. done.
Qed.

(** The annotation of the three-row base table with [jes = 0.05] and
    tag 7. *)
Lemma add_syst_columns_spec_witness :
  exists table' : Table,
    add_syst_columns Double.base_table 0.05 0 0 7 = OK table' /\
    num_rows table' = 3 /\
    columns table' =
      columns Double.base_table ++
      [ ("syst_jes"%string,
         mk_Array float32 (replicate 3 (Float (PyFloat.to_float32 0.05))));
        ("syst_met_px"%string,
         mk_Array float32 (replicate 3 (Float (PyFloat.to_float32 0))));
        ("syst_met_py"%string,
         mk_Array float32 (replicate 3 (Float (PyFloat.to_float32 0))));
        ("syst_tag"%string, mk_Array int64 (replicate 3 (Int 7))) ].
Proof.
  apply (add_syst_columns_spec Double.base_table 0.05 0 0 7).
  right. reflexivity.
Defined.

(** Counterexample to C4 as stated: a tag outside the signed 64-bit range cannot be
    stored in the [int64] column, and [add_syst_columns] raises on a table
    that has rows. *)
Lemma add_syst_columns_tag_overflow :
  add_syst_columns Double.base_table 0.05 0 0 9223372036854775808
  = Error OverflowError.
Proof. reflexivity. Qed.

(** C10, amended: [add_syst_columns] preserves the row count whatever
    the row count is: for every input table, and a tag that fits the
    [int64] column (any tag when the table has no rows), it returns a
    table with the row count of the input, and on an input without rows
    the four appended columns are empty. *)
Theorem add_syst_columns_num_rows
    (table : Table) (jes met_px met_py : float) (tag : Z) :
  num_rows table = 0 \/ fits_int64 tag = true ->
  exists table' : Table,
    add_syst_columns table jes met_px met_py tag = OK table' /\
    num_rows table' = num_rows table /\
    (num_rows table = 0 ->
     exists a1 a2 a3 a4 : Array,
       columns table' =
         columns table ++
         [ ("syst_jes"%string, a1); ("syst_met_px"%string, a2);
           ("syst_met_py"%string, a3); ("syst_tag"%string, a4) ] /\
       values a1 = [] /\ values a2 = [] /\ values a3 = [] /\ values a4 = []).
Proof.
  intros H. eexists. split; [by apply ArrowFacts.add_syst_columns_OK|].
  split; [done|]. intros Hn. cbn [columns]. rewrite Hn.
  by do 4 eexists.
Qed.

(** A table without rows, annotated with a tag that no [int64] holds. *)
Lemma add_syst_columns_num_rows_witness :
  exists table' : Table,
    add_syst_columns (mk_Table 0 [("pt"%string, mk_Array float32 [])])
      0.05 1 2 9223372036854775808 = OK table' /\
    num_rows table' = 0 /\
    (0 = 0 ->
     exists a1 a2 a3 a4 : Array,
       columns table' =
         [("pt"%string, mk_Array float32 [])] ++
         [ ("syst_jes"%string, a1); ("syst_met_px"%string, a2);
           ("syst_met_py"%string, a3); ("syst_tag"%string, a4) ] /\
       values a1 = [] /\ values a2 = [] /\ values a3 = [] /\ values a4 = []).
Proof.
  apply (add_syst_columns_num_rows
           (mk_Table 0 [("pt"%string, mk_Array float32 [])])
           0.05 1 2 9223372036854775808).
  left. reflexivity.
Defined.

(** Counterexample to C10 as stated: on a table with one row, a tag
    below the signed 64-bit range cannot be stored and [add_syst_columns]
    raises instead of returning a table with one row. *)
Lemma add_syst_columns_one_row_raises :
  add_syst_columns (mk_Table 1 [("pt"%string, mk_Array float32 [Float 10.0])])
    0.05 1.0 2.0 (-9223372036854775809)
  = Error OverflowError.
Proof. reflexivity. Qed.

(** ** Concatenation of tables *)

Module ConcatFacts.

Lemma lookup_field_app_r {V} (name : string) (l1 l2 : list (string * V)) :
  ~ In name (map fst l1) ->
  lookup_field name (l1 ++ l2) = lookup_field name l2.
Proof.
  induction l1 as [|f l1 IH]; [done|]. cbn. intros Hn.
  destruct (decide (f.1 = name)) as [Heq|_]; [by destruct Hn; left|].
  apply IH. intros Hin. apply Hn. by right.
Qed.

Lemma lookup_field_map {V} (name : string) (sch : Schema)
    (h : string * DataType -> V) :
  In name (map fst sch) ->
  exists ty, lookup_field name (map (fun f => (f.1, h f)) sch) = Some (h (name, ty)).
Proof.
  induction sch as [|[n ty] sch IH]; [done|]. cbn. intros [<- | Hin].
  - exists ty. by rewrite decide_True.
  - destruct (decide (n = name)) as [<-|_]; [by exists ty|]. by apply IH.
Qed.

Lemma merge_field_names (f : string * DataType) (acc acc' : Schema) (n : string) :
  merge_field f acc = OK acc' -> In n (map fst acc) -> In n (map fst acc').
Proof.
  revert acc'. induction acc as [|g acc IH]; intros acc'; [done|]. cbn.
  destruct (decide (g.1 = f.1)) as [_|_].
  - destruct (merge_type _ _) as [ty|]; [|done]. cbn. by intros [= <-].
  - destruct (merge_field f acc) as [rest|]; [|done]. cbn. intros [= <-] [Hn|Hn].
    + by left.
    + right. by apply IH.
Qed.

Lemma merge_schema_names (s acc acc' : Schema) (n : string) :
  merge_schema s acc = OK acc' -> In n (map fst acc) -> In n (map fst acc').
Proof.
  revert acc. induction s as [|f s IH]; intros acc; cbn.
  - by intros [= <-].
  - destruct (merge_field f acc) as [acc1|] eqn:Hf; [|done]. cbn.
    intros H Hn. eapply IH; [done|]. by eapply merge_field_names.
Qed.

Lemma merge_schemas_names (ss : list Schema) (acc acc' : Schema) (n : string) :
  merge_schemas ss acc = OK acc' -> In n (map fst acc) -> In n (map fst acc').
Proof.
  revert acc. induction ss as [|s ss IH]; intros acc; cbn.
  - by intros [= <-].
  - destruct (merge_schema s acc) as [acc1|] eqn:Hs; [|done]. cbn.
    intros H Hn. eapply IH; [done|]. by eapply merge_schema_names.
Qed.

Lemma schema_names (t : Table) : map fst (schema t) = map fst (columns t).
Proof. unfold schema. rewrite map_map. done. Qed.

(** A unification that succeeds had a first schema, whose names all
    survive, and no schema with a repeated name. *)
Lemma unify_schemas_inv (ss : list Schema) (sch : Schema) :
  unify_schemas ss = OK sch ->
  Forall (fun s => NoDup (map fst s)) ss /\
  exists s0 ss', ss = s0 :: ss' /\
    forall n, In n (map fst s0) -> In n (map fst sch).
Proof.
  unfold unify_schemas. destruct ss as [|s0 ss']; [done|].
  destruct (forallb distinct_names (s0 :: ss')) eqn:Hd; [|done].
  intros H. split.
  - apply Forall_forall. intros s Hs.
    rewrite forallb_forall in Hd. apply list_elem_of_In in Hs.
    specialize (Hd s Hs). unfold distinct_names in Hd.
    by apply bool_decide_eq_true in Hd.
  - exists s0, ss'. split; [done|]. intros n. by eapply merge_schemas_names.
Qed.

Lemma concat_tables_inv (ts : list Table) (T : Table) :
  concat_tables ts = OK T ->
  num_rows T = sum_list (map num_rows ts) /\
  Forall (fun t => NoDup (map fst (columns t))) ts /\
  exists t0 ts', ts = t0 :: ts' /\
    forall name, In name (map fst (columns t0)) ->
      exists a, column T name = Some a /\
        values a = concat (map (column_or_nulls name) ts).
Proof.
  unfold concat_tables.
  destruct (unify_schemas (map schema ts)) as [sch|] eqn:Hu; [|done].
  cbn. intros [= <-]. cbn [num_rows]. split; [done|].
  apply unify_schemas_inv in Hu as (Hdist & s0 & ss' & Hss & Hnames).
  split.
  - apply Forall_forall. intros t Ht.
    rewrite <- schema_names. apply (proj1 (Forall_forall _ _) Hdist).
    apply list_elem_of_In, in_map, list_elem_of_In, Ht.
  - destruct ts as [|t0 ts']; [done|]. injection Hss as <- <-.
    exists t0, ts'. split; [done|]. intros name Hin.
    rewrite <- schema_names in Hin. apply Hnames in Hin.
    unfold column. cbn [columns].
    destruct (lookup_field_map name sch
                (fun f => mk_Array f.2
                   (concat (map (column_or_nulls f.1) (t0 :: ts')))) Hin)
      as [ty Hty].
    rewrite Hty. eexists. split; [done|]. done.
Qed.

(** The rows an annotated table contributes to each bookkeeping column,
    when its column names are distinct. *)
Lemma annotated_columns (shifted : Table) (n : nat) (jes px py : float) (tag : Z) :
  let t := mk_Table n (columns shifted ++ syst_columns n jes px py tag) in
  NoDup (map fst (columns t)) ->
  column_or_nulls "syst_jes" t = replicate n (Float (PyFloat.to_float32 jes)) /\
  column_or_nulls "syst_met_px" t = replicate n (Float (PyFloat.to_float32 px)) /\
  column_or_nulls "syst_met_py" t = replicate n (Float (PyFloat.to_float32 py)) /\
  column_or_nulls "syst_tag" t = replicate n (Int tag).
Proof.
  cbn zeta. cbn [columns]. rewrite map_app. intros Hnd.
  assert (forall name, In name (map fst (syst_columns n jes px py tag)) ->
            ~ In name (map fst (columns shifted))) as Hfresh.
  { intros name Hin Hin'. apply NoDup_app in Hnd as (_ & Hdisj & _).
    apply (Hdisj name); by apply list_elem_of_In. }
  unfold column_or_nulls, column. cbn [columns num_rows].
  repeat split; rewrite lookup_field_app_r by (apply Hfresh; cbn; tauto); done.
Qed.

(** Rows of a concatenation of blocks of [n] rows: row [r] is row
    [r mod n] of block [r / n]. *)
Lemma concat_blocks_lookup {V} (ls : list (list V)) (n r : nat) :
  Forall (fun l => length l = n) ls ->
  r < length ls * n ->
  exists l, ls !! (r / n) = Some l /\ concat ls !! r = l !! (r mod n).
Proof.
  intros Hall. revert r. induction Hall as [|l ls Hl Hall IH]; intros r Hr.
  - cbn in Hr. lia.
  - assert (0 < n) as Hn by (cbn in Hr; lia).
    destruct (Nat.lt_ge_cases r n) as [Hlt|Hge].
    + exists l. rewrite Nat.div_small, Nat.mod_small by done.
      split; [done|]. cbn. by rewrite lookup_app_l by lia.
    + destruct (IH (r - n)) as (l' & Hl' & Hc); [cbn in Hr; lia|].
      assert (r = (r - n) + 1 * n) as Hr' by lia.
      assert (r / n = S ((r - n) / n)) as Hdiv.
      { rewrite Hr' at 1. rewrite Nat.div_add by lia. lia. }
      assert (r mod n = (r - n) mod n) as Hmod.
      { rewrite Hr' at 1. by rewrite Nat.Div0.mod_add. }
      exists l'. rewrite Hdiv, Hmod. split; [done|].
      cbn. by rewrite lookup_app_r, Hl by lia.
Qed.

Lemma concat_blocks_length {V} (ls : list (list V)) (n : nat) :
  Forall (fun l => length l = n) ls -> length (concat ls) = length ls * n.
Proof.
  induction 1 as [|l ls Hl _ IH]; [done|].
  cbn. rewrite length_app, IH, Hl. done.
Qed.

Lemma sum_num_rows (ts : list Table) (n : nat) :
  Forall (fun t => num_rows t = n) ts ->
  sum_list (map num_rows ts) = length ts * n.
Proof.
  induction 1 as [|t ts Ht _ IH]; [done|]. cbn. by rewrite IH, Ht.
Qed.

End ConcatFacts.

(** ** The pipeline *)

Section PipelineFacts.

Context {Rng App : Type}.
Variable np_random_normal : float -> float -> Rng -> result float * Rng.
Variable np_random_lognormal : float -> float -> Rng -> result float * Rng.
Variable syst_apply :
  Table -> option ObjectShifts -> option MetShift -> bool -> App -> result Table * App.
Variable cfg : Config.

Local Notation "x <- m ;; k" := (bind m (fun x => k))
  (at level 100, m at next level, right associativity).

Local Abbreviation sample_jes' := (sample_jes np_random_normal cfg).
Local Abbreviation sample_met' := (sample_met np_random_lognormal cfg).
Local Abbreviation apply' := (SystematicsApplier_apply syst_apply).
Local Abbreviation cycle' :=
  (cycle np_random_normal np_random_lognormal syst_apply cfg).
Local Abbreviation family_tables' :=
  (family_tables np_random_normal np_random_lognormal syst_apply cfg).
Local Abbreviation generate' :=
  (generate np_random_normal np_random_lognormal syst_apply cfg).
Local Abbreviation run_families' :=
  (run_families np_random_normal np_random_lognormal syst_apply cfg).
Local Abbreviation main' :=
  (main np_random_normal np_random_lognormal syst_apply cfg).

(** The number of cycles of a family. *)
Local Abbreviation N := (Z.to_nat (N_DATASETS_PER_TYPE cfg)).

(** *** Running a computation step by step *)

Lemma bind_OK_inv {A B} (m : M A) (k : A -> M B) (w w' : World Rng App) (b : B) :
  bind m k w = (OK b, w') ->
  exists a w1, m w = (OK a, w1) /\ k a w1 = (OK b, w').
Proof.
  unfold bind. destruct (m w) as [[a|e] w1]; [|done]. intros H. by exists a, w1.
Qed.

Lemma bind_Error_inv {A B} (m : M A) (k : A -> M B) (w w' : World Rng App) (e : exn) :
  bind m k w = (Error e, w') ->
  m w = (Error e, w') \/ exists a w1, m w = (OK a, w1) /\ k a w1 = (Error e, w').
Proof.
  unfold bind. destruct (m w) as [[a|e'] w1]; intros H.
  - right. by exists a, w1.
  - left. by injection H as -> ->.
Qed.

Lemma bind_OK {A B} (m : M A) (k : A -> M B) (w w1 : World Rng App) (a : A) :
  m w = (OK a, w1) -> bind m k w = k a w1.
Proof. unfold bind. by intros ->. Qed.

Lemma bind_Error {A B} (m : M A) (k : A -> M B) (w w1 : World Rng App) (e : exn) :
  m w = (Error e, w1) -> bind m k w = (Error e, w1).
Proof. unfold bind. by intros ->. Qed.



Lemma lift_OK_inv {A} (r : result A) (w w' : World Rng App) (a : A) :
  lift r w = (OK a, w') -> r = OK a /\ w' = w.
Proof. unfold lift. by intros [= -> ->]. Qed.

Lemma ret_inv {A} (a b : A) (w w' : World Rng App) :
  ret a w = (OK b, w') -> b = a /\ w' = w.
Proof. unfold ret. by intros [= -> ->]. Qed.

Lemma apply_OK_inv (base t : Table) (os : option ObjectShifts)
    (ms : option MetShift) (rg : bool) (w w' : World Rng App) :
  apply' base os ms rg w = (OK t, w') ->
  exists s', syst_apply base os ms rg (applier w) = (OK t, s').
Proof.
  unfold SystematicsApplier_apply.
  destruct (syst_apply _ _ _ _ _) as [r s']. intros [= -> _]. by exists s'.
Qed.

(** *** The sampler *)

Lemma sample_jes_draw (w : World Rng App) (z : float) (g : Rng) :
  np_random_normal 0 (JES_SIGMA cfg) (rng w) = (OK z, g) ->
  sample_jes' w
  = (OK (clip z (JES_MIN cfg) (JES_MAX cfg)), mk_World g (applier w) (disk w)).
Proof.
  intros H. unfold sample_jes, bind, random_normal. by rewrite H.
Qed.

Lemma sample_met_draw (w : World Rng App) (z1 z2 : float) (g1 g2 : Rng) :
  np_random_lognormal (MET_LOGNORM_MEAN cfg) (MET_LOGNORM_SIGMA cfg) (rng w)
    = (OK z1, g1) ->
  np_random_lognormal (MET_LOGNORM_MEAN cfg) (MET_LOGNORM_SIGMA cfg) g1
    = (OK z2, g2) ->
  sample_met' w
  = (OK (clip z1 (MET_MIN cfg) (MET_MAX cfg), clip z2 (MET_MIN cfg) (MET_MAX cfg)),
     mk_World g2 (applier w) (disk w)).
Proof.
  intros H1 H2. unfold sample_met, bind, random_lognormal.
  rewrite H1. cbn [rng applier disk]. by rewrite H2.
Qed.

(** *** One cycle *)

(** What a cycle that completes has produced: the table the applier
    returned for the base table, annotated with the sampled parameters of
    the family, zero for the parameters of the other family, and the
    cycle index. *)
Lemma cycle_OK_inv (fam : Family) (base : Table) (i : Z) (w w' : World Rng App)
    (t : Table) :
  cycle' fam base i w = (OK t, w') ->
  exists (shifted : Table) (jes px py : float),
    (exists os ms s s', syst_apply base os ms true s = (OK shifted, s')) /\
    t = mk_Table (num_rows shifted)
          (columns shifted ++ syst_columns (num_rows shifted) jes px py i) /\
    (fam = JES_only -> px = 0%float /\ py = 0%float) /\
    (fam = MET_only -> jes = 0%float).
Proof.
  destruct fam; cbn [cycle].
  - unfold jes_only_cycle. intros H.
    apply bind_OK_inv in H as (jes & w1 & _ & H).
    apply bind_OK_inv in H as (shifted & w2 & Happ & H).
    apply bind_OK_inv in H as (t' & w3 & Hadd & H).
    apply ret_inv in H as [-> _].
    apply lift_OK_inv in Hadd as [Hadd _].
    apply apply_OK_inv in Happ as [s' Happ].
    apply ArrowFacts.add_syst_columns_inv in Hadd.
    exists shifted, jes, 0%float, 0%float. split; [by eauto 6|]. by split.
  - unfold met_only_cycle. intros H.
    apply bind_OK_inv in H as ([px py] & w1 & _ & H).
    apply bind_OK_inv in H as (shifted & w2 & Happ & H).
    apply bind_OK_inv in H as (t' & w3 & Hadd & H).
    apply ret_inv in H as [-> _].
    apply lift_OK_inv in Hadd as [Hadd _].
    apply apply_OK_inv in Happ as [s' Happ].
    apply ArrowFacts.add_syst_columns_inv in Hadd.
    exists shifted, 0%float, px, py. split; [by eauto 6|]. by split.
  - unfold jes_met_cycle. intros H.
    apply bind_OK_inv in H as (jes & w1 & _ & H).
    apply bind_OK_inv in H as ([px py] & w1' & _ & H).
    apply bind_OK_inv in H as (shifted & w2 & Happ & H).
    apply bind_OK_inv in H as (t' & w3 & Hadd & H).
    apply ret_inv in H as [-> _].
    apply lift_OK_inv in Hadd as [Hadd _].
    apply apply_OK_inv in Happ as [s' Happ].
    apply ArrowFacts.add_syst_columns_inv in Hadd.
    exists shifted, jes, px, py. split; [by eauto 6|]. by split.
Qed.

(** *** The loop of a family *)

Lemma for_each_OK_inv (xs : list Z) (body : Z -> M Table) (acc ts : list Table)
    (w w' : World Rng App) :
  for_each xs body acc w = (OK ts, w') ->
  exists ts', ts = acc ++ ts' /\
    Forall2 (fun i t => exists w1 w2, body i w1 = (OK t, w2)) xs ts'.
Proof.
  revert acc w. induction xs as [|i xs IH]; intros acc w; cbn [for_each].
  - intros H. apply ret_inv in H as [-> _]. exists []. by rewrite app_nil_r.
  - intros H. apply bind_OK_inv in H as (t & w1 & Ht & H).
    apply IH in H as (ts' & -> & Hall).
    exists (t :: ts'). rewrite <- app_assoc. split; [done|].
    constructor; [by eauto|done].
Qed.

(** A cycle that raises ends the loop with its error. *)
Lemma for_each_raises (xs1 xs2 : list Z) (i : Z) (body : Z -> M Table)
    (acc acc' : list Table) (w w1 w2 : World Rng App) (e : exn) :
  for_each xs1 body acc w = (OK acc', w1) ->
  body i w1 = (Error e, w2) ->
  for_each (xs1 ++ i :: xs2) body acc w = (Error e, w2).
Proof.
  revert acc w. induction xs1 as [|j xs1 IH]; intros acc w; cbn [for_each app].
  - intros H Hi. apply ret_inv in H as [-> ->]. by apply bind_Error.
  - intros H Hi. apply bind_OK_inv in H as (t & w0 & Ht & H).
    rewrite (bind_OK _ _ _ _ _ Ht). by apply IH.
Qed.

Lemma range_lookup (n : Z) (i : nat) :
  i < Z.to_nat n -> range n !! i = Some (Z.of_nat i).
Proof.
  intros Hi. unfold range.
  change (map Z.of_nat (seq 0 (Z.to_nat n))) with (Z.of_nat <$> seq 0 (Z.to_nat n)).
  by rewrite list_lookup_fmap, lookup_seq_lt.
Qed.

Lemma range_length (n : Z) : length (range n) = Z.to_nat n.
Proof. unfold range. by rewrite length_map, length_seq. Qed.

(** The tables a family has collected when its loop completes: one per
    cycle, in cycle order, each the annotated table of its cycle. *)
Lemma family_tables_OK_inv (fam : Family) (base : Table) (w w' : World Rng App)
    (ts : list Table) :
  family_tables' fam base w = (OK ts, w') ->
  length ts = N /\
  forall (i : nat) (t : Table), ts !! i = Some t ->
    exists (shifted : Table) (jes px py : float),
      (exists os ms s s', syst_apply base os ms true s = (OK shifted, s')) /\
      t = mk_Table (num_rows shifted)
            (columns shifted ++
             syst_columns (num_rows shifted) jes px py (Z.of_nat i)) /\
      (fam = JES_only -> px = 0%float /\ py = 0%float) /\
      (fam = MET_only -> jes = 0%float).
Proof.
  unfold family_tables. intros H.
  apply for_each_OK_inv in H as (ts' & -> & Hall). cbn [app].
  pose proof (Forall2_length _ _ _ Hall) as Hlen. rewrite range_length in Hlen.
  split; [done|]. intros i t Hi.
  assert (i < N) as Hlt by (rewrite Hlen; by eapply lookup_lt_Some).
  destruct (Forall2_lookup_lr _ _ _ i _ _ Hall (range_lookup _ _ Hlt) Hi)
    as (w1 & w2 & Hc).
  by eapply cycle_OK_inv.
Qed.

(** *** What touches the disk *)

Lemma keeps_disk_ret {A} (a : A) : keeps_disk (ret (Rng:=Rng) (App:=App) a).
Proof. by intros w. Qed.

Lemma keeps_disk_lift {A} (r : result A) : keeps_disk (lift (Rng:=Rng) (App:=App) r).
Proof. by intros w. Qed.

Lemma keeps_disk_bind {A B} (m : M A) (k : A -> M B) :
  keeps_disk m -> (forall a, keeps_disk (k a)) -> keeps_disk (Rng:=Rng) (App:=App) (bind m k).
Proof.
  intros Hm Hk w. unfold bind. specialize (Hm w).
  destruct (m w) as [[a|e] w1]; cbn in *; [|done].
  by rewrite Hk.
Qed.

Lemma keeps_disk_random_normal (loc scale : float) :
  keeps_disk (App:=App) (random_normal np_random_normal loc scale).
Proof. intros w. unfold random_normal. by destruct (np_random_normal _ _ _). Qed.

Lemma keeps_disk_random_lognormal (mean sigma : float) :
  keeps_disk (App:=App) (random_lognormal np_random_lognormal mean sigma).
Proof. intros w. unfold random_lognormal. by destruct (np_random_lognormal _ _ _). Qed.

Lemma keeps_disk_apply (base : Table) (os : option ObjectShifts)
    (ms : option MetShift) (rg : bool) :
  keeps_disk (Rng:=Rng) (apply' base os ms rg).
Proof. intros w. unfold SystematicsApplier_apply. by destruct (syst_apply _ _ _ _ _). Qed.

Lemma keeps_disk_sample_jes : keeps_disk (App:=App) sample_jes'.
Proof.
  apply keeps_disk_bind; [apply keeps_disk_random_normal|].
  intros jes. apply keeps_disk_ret.
Qed.

Lemma keeps_disk_sample_met : keeps_disk (App:=App) sample_met'.
Proof.
  apply keeps_disk_bind; [apply keeps_disk_random_lognormal|]. intros px.
  apply keeps_disk_bind; [apply keeps_disk_random_lognormal|]. intros py.
  apply keeps_disk_ret.
Qed.

Lemma keeps_disk_cycle (fam : Family) (base : Table) (i : Z) :
  keeps_disk (cycle' fam base i).
Proof.
  destruct fam; cbn [cycle];
    [unfold jes_only_cycle | unfold met_only_cycle | unfold jes_met_cycle];
    repeat first
      [ apply keeps_disk_sample_jes
      | apply keeps_disk_sample_met
      | apply keeps_disk_apply
      | apply keeps_disk_lift
      | apply keeps_disk_ret
      | apply keeps_disk_bind
      | intros [? ?]
      | intros ? ].
Qed.

Lemma keeps_disk_for_each (xs : list Z) (body : Z -> M Table) (acc : list Table) :
  (forall i, keeps_disk (body i)) ->
  keeps_disk (Rng:=Rng) (App:=App) (for_each xs body acc).
Proof.
  intros Hbody. revert acc. induction xs as [|i xs IH]; intros acc; cbn [for_each].
  - apply keeps_disk_ret.
  - apply keeps_disk_bind; [apply Hbody|]. intros t. apply IH.
Qed.

(** The cycles of a family never touch the disk. *)
Lemma keeps_disk_family_tables (fam : Family) (base : Table) :
  keeps_disk (family_tables' fam base).
Proof. apply keeps_disk_for_each. intros i. apply keeps_disk_cycle. Qed.

(** *** The block of a family *)

(** A block that completes has run its loop to the end, concatenated the
    tables and written the result under the name of the family. *)
Lemma generate_OK_inv (fam : Family) (base : Table) (w w' : World Rng App) :
  generate' fam base w = (OK tt, w') ->
  exists ts w1 T,
    family_tables' fam base w = (OK ts, w1) /\
    concat_tables ts = OK T /\
    rng w' = rng w1 /\ applier w' = applier w1 /\
    disk w' = <[output_path fam := T]> (disk w).
Proof.
  unfold generate. intros H.
  apply bind_OK_inv in H as (ts & w1 & Hts & H).
  apply bind_OK_inv in H as (T & w2 & HT & H).
  apply lift_OK_inv in HT as [HT ->].
  unfold write_table in H. injection H as <-.
  exists ts, w1, T. cbn. repeat split; try done.
  pose proof (keeps_disk_family_tables fam base w) as Hd.
  rewrite Hts in Hd. cbn in Hd. by rewrite Hd.
Qed.

(** A block that raises has written nothing. *)
Lemma generate_Error_inv (fam : Family) (base : Table) (w w' : World Rng App) (e : exn) :
  generate' fam base w = (Error e, w') -> disk w' = disk w.
Proof.
  unfold generate. intros H.
  pose proof (keeps_disk_family_tables fam base w) as Hd.
  apply bind_Error_inv in H as [H | (ts & w1 & Hts & H)].
  - rewrite H in Hd. done.
  - rewrite Hts in Hd. cbn in Hd.
    apply bind_Error_inv in H as [H | (T & w2 & HT & H)].
    + unfold lift in H. injection H as _ <-. done.
    + unfold write_table in H. done.
Qed.

Lemma generate_loop_Error (fam : Family) (base : Table) (w w' : World Rng App) (e : exn) :
  family_tables' fam base w = (Error e, w') ->
  generate' fam base w = (Error e, w').
Proof. intros H. unfold generate. by apply bind_Error. Qed.


(** The files after a list of blocks that all completed: a path that is
    not an output of the list is as before, and the output of each
    family holds the concatenation of the tables of its completed loop. *)
Lemma run_families_OK_inv (fams : list Family) (base : Table) (w w' : World Rng App) :
  run_families' fams base w = (OK tt, w') ->
  (forall p, ~ In p (map output_path fams) -> disk w' !! p = disk w !! p) /\
  (NoDup (map output_path fams) ->
   forall fam, In fam fams ->
     exists ts wa wb T,
       family_tables' fam base wa = (OK ts, wb) /\
       concat_tables ts = OK T /\
       disk w' !! output_path fam = Some T).
Proof.
  revert w. induction fams as [|f fams IH]; intros w; cbn [run_families].
  - intros H. apply ret_inv in H as [_ ->]. by split.
  - intros H. apply bind_OK_inv in H as ([] & w1 & Hgen & H).
    apply generate_OK_inv in Hgen as (ts & wa & T & Hts & HT & _ & _ & Hdisk).
    apply IH in H as [Hother Hfams]. split.
    + intros p Hp. cbn in Hp. rewrite Hother by tauto.
      rewrite Hdisk. apply lookup_insert_ne. tauto.
    + intros Hnd fam [<- | Hin]; cbn in Hnd; apply NoDup_cons in Hnd as [Hf Hnd].
      * exists ts, w, wa, T. repeat split; try done.
        rewrite Hother by (by rewrite <- list_elem_of_In).
        rewrite Hdisk. apply lookup_insert_eq.
      * by apply Hfams.
Qed.

(** [main] loads and slices the base dataset and then runs the three
    blocks in their order. *)
Lemma main_run_families (w : World Rng App) :
  main' w =
  match disk w !! INPUT_PARQUET with
  | Some t0 =>
      run_families' [JES_only; MET_only; JES_MET] (slice t0 0 (BASE_SLICE cfg)) w
  | None => (Error FileNotFoundError, w)
  end.
Proof.
  unfold main, bind at 1, read_table.
  destruct (disk w !! INPUT_PARQUET) as [t0|]; [|done].
  cbn [run_families]. unfold generate, family_tables, cycle, output_path, bind.
  repeat match goal with
         | |- context [match ?x with _ => _ end] => destruct x
         end; done.
Qed.

(** *** Bookkeeping of the cycles *)

(** C5: every cycle that completes yields the table returned by the
    applier followed by the four bookkeeping columns, each constant over
    the rows, with [syst_tag] equal to the index passed to the cycle,
    with [syst_met_px] and [syst_met_py] equal to 0.0 on every row in the
    JES-only family and [syst_jes] equal to 0.0 on every row in the
    MET-only family; and the loop of a family, when it completes, has
    collected one such table per cycle, the table at position [i]
    (counted from 0) carrying the tag [i]. *)
Theorem cycle_bookkeeping (fam : Family) (base : Table) :
  (forall (i : Z) (w w' : World Rng App) (t : Table),
      cycle' fam base i w = (OK t, w') -> annotated fam i t) /\
  (forall (w w' : World Rng App) (ts : list Table),
      family_tables' fam base w = (OK ts, w') ->
      length ts = N /\
      forall (i : nat) (t : Table),
        ts !! i = Some t -> annotated fam (Z.of_nat i) t).
Proof.
  assert (forall i w w' t,
            cycle' fam base i w = (OK t, w') -> annotated fam i t) as Hcycle.
  { intros i w w' t H.
    apply cycle_OK_inv in H as (shifted & jes & px & py & _ & -> & HJ & HM).
    exists shifted, (PyFloat.to_float32 jes), (PyFloat.to_float32 px),
      (PyFloat.to_float32 py).
    split; [done|]. split; [done|]. split.
    - intros Hfam. by destruct (HJ Hfam) as [-> ->].
    - intros Hfam. by rewrite (HM Hfam). }
  split; [exact Hcycle|].
  intros w w' ts H. unfold family_tables in H.
  apply for_each_OK_inv in H as (ts' & -> & Hall). cbn [app].
  pose proof (Forall2_length _ _ _ Hall) as Hlen. rewrite range_length in Hlen.
  split; [done|]. intros i t Hi.
  assert (i < N) as Hlt by (rewrite Hlen; by eapply lookup_lt_Some).
  destruct (Forall2_lookup_lr _ _ _ i _ _ Hall (range_lookup _ _ Hlt) Hi)
    as (w1 & w2 & Hc).
  by eapply Hcycle.
Qed.

(** *** The output table of a family *)

(** The rows that the tables of a completed loop contribute to a
    bookkeeping column: one block of [num_rows base] equal values per
    cycle, and for [syst_tag] the value of block [i] is [i]. *)
Lemma family_blocks (fam : Family) (base : Table) (w w' : World Rng App)
    (ts : list Table) (name : string) :
  (forall os ms rg s t s',
      syst_apply base os ms rg s = (OK t, s') -> num_rows t = num_rows base) ->
  family_tables' fam base w = (OK ts, w') ->
  Forall (fun t => NoDup (map fst (columns t))) ts ->
  In name ["syst_jes"; "syst_met_px"; "syst_met_py"; "syst_tag"]%string ->
  Forall (fun t => num_rows t = num_rows base /\ In name (map fst (columns t))) ts /\
  forall (i : nat) (l : list Value),
    map (column_or_nulls name) ts !! i = Some l ->
    exists v, l = replicate (num_rows base) v /\
      (name = "syst_tag"%string -> v = Int (Z.of_nat i)).
Proof.
  intros Happ H Hnd Hname.
  apply family_tables_OK_inv in H as [Hlen Hall].
  assert (forall i t, ts !! i = Some t ->
            exists shifted jes px py,
              num_rows shifted = num_rows base /\
              t = mk_Table (num_rows shifted)
                    (columns shifted ++
                     syst_columns (num_rows shifted) jes px py (Z.of_nat i)))
    as Hann.
  { intros i t Hi.
    destruct (Hall i t Hi)
      as (shifted & jes & px & py & (os & ms & s & s' & Hs) & -> & _).
    exists shifted, jes, px, py. split; [by eapply Happ|done]. }
  split.
  - apply Forall_lookup. intros i t Hi.
    destruct (Hann i t Hi) as (shifted & jes & px & py & Hn & ->).
    split; [done|]. cbn [columns]. rewrite map_app. apply in_or_app. right.
    cbn. cbn in Hname. tauto.
  - intros i l Hi.
    change (map (column_or_nulls name) ts) with (column_or_nulls name <$> ts) in Hi.
    rewrite list_lookup_fmap in Hi.
    destruct (ts !! i) as [t|] eqn:Ht; [|done]. injection Hi as <-.
    destruct (Hann i t Ht) as (shifted & jes & px & py & Hn & ->).
    assert (NoDup (map fst (columns
              (mk_Table (num_rows shifted)
                 (columns shifted ++
                  syst_columns (num_rows shifted) jes px py (Z.of_nat i))))))
      as Hnd'.
    { by apply (proj1 (Forall_lookup _ _) Hnd i). }
    apply ConcatFacts.annotated_columns in Hnd' as (Hj & Hx & Hy & Ht').
    rewrite <- Hn.
    cbn in Hname. destruct Hname as [<-|[<-|[<-|[<-|[]]]]];
      eexists; (split; [eassumption|done]).
Qed.

(** The output table of a block, row by row: its row count, the four
    bookkeeping columns constant on each stretch of [num_rows base]
    rows, and the tag of row [r] equal to [r / num_rows base]. *)
Lemma family_output_by_row (fam : Family) (base : Table) (w w' : World Rng App) :
  (forall os ms rg s t s',
      syst_apply base os ms rg s = (OK t, s') -> num_rows t = num_rows base) ->
  generate' fam base w = (OK tt, w') ->
  exists T : Table,
    disk w' !! output_path fam = Some T /\
    num_rows T = N * num_rows base /\
    (forall name : string,
        In name ["syst_jes"; "syst_met_px"; "syst_met_py"; "syst_tag"]%string ->
        exists a : Array,
          column T name = Some a /\
          length (values a) = N * num_rows base /\
          forall r1 r2 : nat,
            r1 < N * num_rows base -> r2 < N * num_rows base ->
            r1 / num_rows base = r2 / num_rows base ->
            values a !! r1 = values a !! r2) /\
    (exists a : Array,
        column T "syst_tag" = Some a /\
        forall r : nat, r < N * num_rows base ->
          values a !! r = Some (Int (Z.of_nat (r / num_rows base)))).
Proof.
  intros Happ Hgen.
  apply generate_OK_inv in Hgen as (ts & w1 & T & Hts & HT & _ & _ & Hdisk).
  exists T. split; [rewrite Hdisk; apply lookup_insert_eq|].
  apply ConcatFacts.concat_tables_inv in HT as (Hrows & Hnd & t0 & ts' & Hts0 & Hcol).
  pose proof (family_tables_OK_inv _ _ _ _ _ Hts) as [Hlen _].
  assert (forall name,
            In name ["syst_jes"; "syst_met_px"; "syst_met_py"; "syst_tag"]%string ->
            exists a, column T name = Some a /\
              values a = concat (map (column_or_nulls name) ts) /\
              Forall (fun l => length l = num_rows base)
                (map (column_or_nulls name) ts) /\
              forall i l, map (column_or_nulls name) ts !! i = Some l ->
                exists v, l = replicate (num_rows base) v /\
                  (name = "syst_tag"%string -> v = Int (Z.of_nat i)))
    as Hblocks.
  { intros name Hname.
    destruct (family_blocks fam base w w1 ts name Happ Hts Hnd Hname) as [Hin Hblk].
    destruct (Hcol name) as (a & Ha & Hv).
    { rewrite Hts0 in Hin. by apply Forall_cons in Hin as [[_ ?] _]. }
    exists a. split; [done|]. split; [done|]. split; [|done].
    apply Forall_lookup. intros i l Hi.
    destruct (Hblk i l Hi) as (v & -> & _). by rewrite length_replicate. }
  assert (forall name, length (map (column_or_nulls name) ts) = N) as Hlen'.
  { intros name. by rewrite length_map. }
  split; [|split].
  - rewrite Hrows. clear Hrows Hcol Hblocks Hts0.
    destruct (family_blocks fam base w w1 ts "syst_tag" Happ Hts Hnd) as [Hin _];
      [cbn; tauto|].
    rewrite <- Hlen. apply ConcatFacts.sum_num_rows.
    eapply Forall_impl; [exact Hin|]. by intros t [? _].
  - intros name Hname.
    destruct (Hblocks name Hname) as (a & Ha & Hv & Hall & Hblk).
    exists a. split; [done|]. split.
    + rewrite Hv, <- (Hlen' name). by apply ConcatFacts.concat_blocks_length.
    + intros r1 r2 Hr1 Hr2 Hdiv. rewrite Hv.
      destruct (ConcatFacts.concat_blocks_lookup _ _ r1 Hall) as (l1 & Hl1 & ->);
        [by rewrite Hlen'|].
      destruct (ConcatFacts.concat_blocks_lookup _ _ r2 Hall) as (l2 & Hl2 & ->);
        [by rewrite Hlen'|].
      rewrite Hdiv in Hl1. rewrite Hl1 in Hl2. injection Hl2 as <-.
      destruct (Hblk _ _ Hl1) as (v & -> & _).
      assert (0 < num_rows base) as Hpos by lia.
      rewrite !lookup_replicate_2; [done| |]; by apply Nat.mod_upper_bound; lia.
  - destruct (Hblocks "syst_tag"%string) as (a & Ha & Hv & Hall & Hblk);
      [cbn; tauto|].
    exists a. split; [done|]. intros r Hr. rewrite Hv.
    destruct (ConcatFacts.concat_blocks_lookup _ _ r Hall) as (l & Hl & ->);
      [by rewrite Hlen'|].
    destruct (Hblk _ _ Hl) as (v & -> & Hv'). rewrite Hv' by done.
    apply lookup_replicate_2. apply Nat.mod_upper_bound. lia.
Qed.

(** The rows of [N] blocks of [n] equal tags, numbered from 0. *)
Lemma tag_blocks_lookup (n count r : nat) :
  r < count * n ->
  concat (map (fun i => replicate n (Int (Z.of_nat i))) (seq 0 count)) !! r
  = Some (Int (Z.of_nat (r / n))).
Proof.
  intros Hr.
  assert (r / n < count) as Hdiv by (apply Nat.Div0.div_lt_upper_bound; lia).
  destruct (ConcatFacts.concat_blocks_lookup
              (map (fun i => replicate n (Int (Z.of_nat i))) (seq 0 count)) n r)
    as (l & Hl & ->).
  - apply Forall_forall. intros l Hl. apply list_elem_of_In in Hl.
    apply in_map_iff in Hl as (i & <- & _). by rewrite length_replicate.
  - by rewrite length_map, length_seq.
  - change (map ?f ?l) with (f <$> l) in Hl.
    rewrite list_lookup_fmap, lookup_seq_lt in Hl by done.
    injection Hl as <-. apply lookup_replicate_2.
    apply Nat.mod_upper_bound. lia.
Qed.

(** C2, amended: for every family, if the working slice has at least one
    row and the applier returns for it a table with as many rows, then
    the table that a completed block writes under the name of the family
    has [N * num_rows base] rows, with [N >= 1]; each of its four
    bookkeeping columns has that many rows and is constant on each of
    the [N] contiguous blocks of [num_rows base] rows; and its [syst_tag]
    column is block 0 filled with 0, then block 1 filled with 1, up to
    block [N-1] filled with [N-1]: every tag [i < N] occurs, and it
    occurs on the rows of block [i] and on no other row. *)
Theorem family_output_blocks (fam : Family) (base : Table) (w w' : World Rng App) :
  0 < num_rows base ->
  (forall os ms rg s t s',
      syst_apply base os ms rg s = (OK t, s') -> num_rows t = num_rows base) ->
  generate' fam base w = (OK tt, w') ->
  exists T : Table,
    disk w' !! output_path fam = Some T /\
    0 < N /\
    num_rows T = N * num_rows base /\
    (forall name : string,
        In name ["syst_jes"; "syst_met_px"; "syst_met_py"; "syst_tag"]%string ->
        exists a : Array,
          column T name = Some a /\
          length (values a) = N * num_rows base /\
          forall r1 r2 : nat,
            r1 < N * num_rows base -> r2 < N * num_rows base ->
            r1 / num_rows base = r2 / num_rows base ->
            values a !! r1 = values a !! r2) /\
    (exists a : Array,
        column T "syst_tag" = Some a /\
        values a
        = concat (map (fun i => replicate (num_rows base) (Int (Z.of_nat i)))
                    (seq 0 N)) /\
        (forall i : nat, i < N ->
           values a !! (i * num_rows base) = Some (Int (Z.of_nat i))) /\
        (forall i r : nat, i < N -> r < N * num_rows base ->
           values a !! r = Some (Int (Z.of_nat i)) <-> r / num_rows base = i)).
Proof.
  intros Hpos Happ Hgen.
  assert (0 < N) as HN.
  { apply generate_OK_inv in Hgen as (ts & w1 & T & Hts & HT & _).
    apply family_tables_OK_inv in Hts as [<- _].
    apply ConcatFacts.concat_tables_inv in HT as (_ & _ & t0 & ts' & -> & _).
    cbn. lia. }
  destruct (family_output_by_row fam base w w' Happ Hgen)
    as (T & HT & Hrows & Hcols & (a & Ha & Htag)).
  exists T. split; [done|]. split; [done|]. split; [done|]. split; [done|].
  exists a. split; [done|].
  destruct (Hcols "syst_tag"%string) as (a' & Ha' & Hlen & _); [cbn; tauto|].
  rewrite Ha in Ha'. injection Ha' as <-.
  split; [|split].
  - apply list_eq. intros r.
    destruct (Nat.lt_ge_cases r (N * num_rows base)) as [Hr|Hr].
    + by rewrite Htag, tag_blocks_lookup.
    + rewrite !lookup_ge_None_2; [done| |by rewrite Hlen].
      rewrite (ConcatFacts.concat_blocks_length _ (num_rows base)).
      * by rewrite length_map, length_seq.
      * apply Forall_forall. intros l Hl. apply list_elem_of_In in Hl.
        apply in_map_iff in Hl as (i & <- & _). by rewrite length_replicate.
  - intros i Hi. rewrite Htag by nia. by rewrite Nat.div_mul by lia.
  - intros i r Hi Hr. rewrite Htag by done. split.
    + intros [= H]. lia.
    + by intros <-.
Qed.

(** *** Failure of a cycle *)




(** *** Validation of the configuration *)

(** C6, amended: the configuration written in the script is valid, and
    the program has no validation step of its own: under every
    configuration, once the base dataset is loaded and there is at
    least one cycle to run, the first action is the JES draw with the
    configured sigma, and the error that this draw raises is the
    outcome of the run. *)
Theorem no_configuration_check :
  valid_config module_config = true /\
  forall (w : World Rng App) (t0 : Table) (e : exn) (g : Rng),
    (0 < N_DATASETS_PER_TYPE cfg)%Z ->
    disk w !! INPUT_PARQUET = Some t0 ->
    np_random_normal 0 (JES_SIGMA cfg) (rng w) = (Error e, g) ->
    main' w = (Error e, mk_World g (applier w) (disk w)).
Proof.
  split; [reflexivity|]. intros w t0 e g HN Hread Hdraw.
  rewrite main_run_families, Hread. cbn [run_families].
  apply bind_Error, generate_loop_Error.
  unfold family_tables, range.
  destruct (Z.to_nat (N_DATASETS_PER_TYPE cfg)) as [|n] eqn:Hn; [lia|].
  cbn [seq map for_each cycle]. apply bind_Error.
  unfold jes_only_cycle. apply bind_Error.
  unfold sample_jes. apply bind_Error.
  unfold random_normal. by rewrite Hdraw.
Qed.

(** *** Two runs *)

Section Determinism.

(** The table that the applier returns is fixed by its arguments. *)
Hypothesis applier_deterministic :
  forall base os ms rg (s1 s2 : App),
    fst (syst_apply base os ms rg s1) = fst (syst_apply base os ms rg s2).

Lemma replays_ret {A} (a : A) : replays (ret (Rng:=Rng) (App:=App) a).
Proof. by intros w1 w2 H. Qed.

Lemma replays_lift {A} (r : result A) : replays (lift (Rng:=Rng) (App:=App) r).
Proof. by intros w1 w2 H. Qed.

Lemma replays_bind {A B} (m : M A) (k : A -> M B) :
  replays m -> (forall a, replays (k a)) -> replays (Rng:=Rng) (App:=App) (bind m k).
Proof.
  intros Hm Hk w1 w2 H. unfold bind. destruct (Hm w1 w2 H) as [Hr Hg].
  destruct (m w1) as [[a1|e1] w1'], (m w2) as [[a2|e2] w2']; cbn in *; try done.
  - injection Hr as <-. by apply Hk.
  - injection Hr as <-. done.
Qed.

Lemma replays_random_normal (loc scale : float) :
  replays (App:=App) (random_normal np_random_normal loc scale).
Proof.
  intros w1 w2 H. unfold random_normal. rewrite H.
  by destruct (np_random_normal _ _ _).
Qed.

Lemma replays_random_lognormal (mean sigma : float) :
  replays (App:=App) (random_lognormal np_random_lognormal mean sigma).
Proof.
  intros w1 w2 H. unfold random_lognormal. rewrite H.
  by destruct (np_random_lognormal _ _ _).
Qed.

Lemma replays_apply (base : Table) (os : option ObjectShifts)
    (ms : option MetShift) (rg : bool) :
  replays (Rng:=Rng) (apply' base os ms rg).
Proof.
  intros w1 w2 H. unfold SystematicsApplier_apply.
  pose proof (applier_deterministic base os ms rg (applier w1) (applier w2)) as Hd.
  by destruct (syst_apply _ _ _ _ (applier w1)), (syst_apply _ _ _ _ (applier w2)).
Qed.

Lemma replays_cycle (fam : Family) (base : Table) (i : Z) :
  replays (cycle' fam base i).
Proof.
  destruct fam; cbn [cycle];
    [unfold jes_only_cycle | unfold met_only_cycle | unfold jes_met_cycle];
    unfold sample_jes, sample_met;
    repeat first
      [ apply replays_random_normal
      | apply replays_random_lognormal
      | apply replays_apply
      | apply replays_lift
      | apply replays_ret
      | apply replays_bind
      | intros [? ?]
      | intros ? ].
Qed.

Lemma replays_for_each (xs : list Z) (body : Z -> M Table) (acc : list Table) :
  (forall i, replays (body i)) ->
  replays (Rng:=Rng) (App:=App) (for_each xs body acc).
Proof.
  intros Hbody. revert acc. induction xs as [|i xs IH]; intros acc; cbn [for_each].
  - apply replays_ret.
  - apply replays_bind; [apply Hbody|]. intros t. apply IH.
Qed.

Lemma replays_family_tables (fam : Family) (base : Table) :
  replays (family_tables' fam base).
Proof. apply replays_for_each. intros i. apply replays_cycle. Qed.

Lemma agree_insert (paths : list string) (p : string) (T : Table)
    (w1 w2 w1' w2' : World Rng App) :
  agree paths w1 w2 ->
  disk w1' = <[p := T]> (disk w1) ->
  disk w2' = <[p := T]> (disk w2) ->
  agree (paths ++ [p]) w1' w2'.
Proof.
  intros Hag H1 H2 q Hq. rewrite H1, H2.
  destruct (decide (p = q)) as [<-|Hne].
  - exists T. by rewrite !lookup_insert_eq.
  - rewrite !lookup_insert_ne by done. apply Hag.
    apply in_app_or in Hq as [Hq|[Hq|[]]]; done.
Qed.

(** Two runs of a block from the same state of the random source end
    alike and, when they complete, have written the same table. *)
Lemma generate_replays (fam : Family) (base : Table) (paths : list string)
    (w1 w2 : World Rng App) :
  rng w1 = rng w2 -> agree paths w1 w2 ->
  fst (generate' fam base w1) = fst (generate' fam base w2) /\
  rng (snd (generate' fam base w1)) = rng (snd (generate' fam base w2)) /\
  (fst (generate' fam base w1) = OK tt ->
   agree (paths ++ [output_path fam])
     (snd (generate' fam base w1)) (snd (generate' fam base w2))).
Proof.
  intros Hrng Hag.
  destruct (replays_family_tables fam base w1 w2 Hrng) as [Hr Hg].
  pose proof (keeps_disk_family_tables fam base w1) as Hd1.
  pose proof (keeps_disk_family_tables fam base w2) as Hd2.
  unfold generate, bind.
  destruct (family_tables' fam base w1) as [[ts|e] w1'],
           (family_tables' fam base w2) as [[ts2|e2] w2']; cbn in *; try done.
  - injection Hr as <-. unfold lift, write_table.
    destruct (concat_tables ts) as [T|e]; cbn; [|done].
    split; [done|]. split; [done|]. intros _.
    apply (agree_insert paths (output_path fam) T w1 w2); [done| |]; cbn;
      by rewrite ?Hd1, ?Hd2.
  - injection Hr as <-. done.
Qed.

Lemma run_families_replays (fams : list Family) (base : Table)
    (paths : list string) (w1 w2 : World Rng App) :
  rng w1 = rng w2 -> agree paths w1 w2 ->
  fst (run_families' fams base w1) = fst (run_families' fams base w2) /\
  (fst (run_families' fams base w1) = OK tt ->
   agree (paths ++ map output_path fams)
     (snd (run_families' fams base w1)) (snd (run_families' fams base w2))).
Proof.
  revert paths w1 w2. induction fams as [|fam fams IH]; intros paths w1 w2 Hrng Hag.
  - cbn. split; [done|]. intros _. by rewrite app_nil_r.
  - cbn [run_families map]. unfold bind.
    destruct (generate_replays fam base paths w1 w2 Hrng Hag) as (Hr & Hg & Hag').
    destruct (generate' fam base w1) as [[[]|e] w1'],
             (generate' fam base w2) as [[[]|e2] w2']; cbn in *; try done.
    replace (paths ++ output_path fam :: map output_path fams)
      with ((paths ++ [output_path fam]) ++ map output_path fams)
      by (by rewrite <- app_assoc).
    apply IH; [done|]. by apply Hag'.
Qed.

(** C8: if the table returned by the applier is fixed by its arguments,
    two runs that start from the same state of the random source and
    from the same base dataset end with the same outcome, and when they
    complete the output file of each of the three families holds the
    same table in both. *)
Theorem two_runs_same_outputs (w1 w2 : World Rng App) :
  rng w1 = rng w2 ->
  disk w1 !! INPUT_PARQUET = disk w2 !! INPUT_PARQUET ->
  fst (main' w1) = fst (main' w2) /\
  (fst (main' w1) = OK tt ->
   forall fam : Family,
     exists T : Table,
       disk (snd (main' w1)) !! output_path fam = Some T /\
       disk (snd (main' w2)) !! output_path fam = Some T).
Proof.
  intros Hrng Hbase. rewrite !main_run_families, <- Hbase.
  destruct (disk w1 !! INPUT_PARQUET) as [t0|]; [|done].
  destruct (run_families_replays [JES_only; MET_only; JES_MET]
              (slice t0 0 (BASE_SLICE cfg)) [] w1 w2 Hrng) as [Hr Hag].
  { by intros p []. }
  split; [done|]. intros HOK fam. apply (Hag HOK). cbn. destruct fam; tauto.
Qed.

End Determinism.

End PipelineFacts.

(** ** The sampler under the configuration of the script *)

(** C3: under the configuration of the script, whatever number the
    normal draw returns, [sample_jes] returns a value in
    [[JES_MIN, JES_MAX]]; and whatever numbers the two log-normal draws
    return, each component returned by [sample_met] lies in
    [[MET_MIN, MET_MAX]] and is non-negative. *)
Theorem sampler_within_bounds {Rng App : Type}
    (np_random_normal np_random_lognormal : float -> float -> Rng -> result float * Rng)
    (w : World Rng App) :
  (forall (z : float) (g : Rng),
      np_random_normal 0%float (JES_SIGMA module_config) (rng w) = (OK z, g) ->
      PyFloat.isnan z = false ->
      exists (jes : float) (w' : World Rng App),
        sample_jes np_random_normal module_config w = (OK jes, w') /\
        (JES_MIN module_config <=? jes)%float = true /\
        (jes <=? JES_MAX module_config)%float = true) /\
  (forall (z1 z2 : float) (g1 g2 : Rng),
      np_random_lognormal (MET_LOGNORM_MEAN module_config)
        (MET_LOGNORM_SIGMA module_config) (rng w) = (OK z1, g1) ->
      np_random_lognormal (MET_LOGNORM_MEAN module_config)
        (MET_LOGNORM_SIGMA module_config) g1 = (OK z2, g2) ->
      PyFloat.isnan z1 = false ->
      PyFloat.isnan z2 = false ->
      exists (px py : float) (w' : World Rng App),
        sample_met np_random_lognormal module_config w = (OK (px, py), w') /\
        ((MET_MIN module_config <=? px)%float = true /\
         (px <=? MET_MAX module_config)%float = true /\
         (0 <=? px)%float = true) /\
        ((MET_MIN module_config <=? py)%float = true /\
         (py <=? MET_MAX module_config)%float = true /\
         (0 <=? py)%float = true)).
Proof.
  split.
  - intros z g Hdraw Hz.
    rewrite (sample_jes_draw _ _ _ _ _ Hdraw). do 2 eexists. split; [done|].
    by apply NumpyFacts.clip_between.
  - intros z1 z2 g1 g2 Hdraw1 Hdraw2 Hz1 Hz2.
    rewrite (sample_met_draw _ _ _ _ _ _ _ Hdraw1 Hdraw2).
    do 3 eexists. split; [done|].
    destruct (NumpyFacts.clip_between z1 (MET_MIN module_config)
                (MET_MAX module_config) Hz1 eq_refl) as [H1 H1'].
    destruct (NumpyFacts.clip_between z2 (MET_MIN module_config)
                (MET_MAX module_config) Hz2 eq_refl) as [H2 H2'].
    done.
Qed.

(** The sampler on draws 0.5 and 7.0: both are clipped to the upper
    bound of their interval, and a log-normal draw of 0.5 is kept. *)
Lemma sampler_within_bounds_witness :
  (exists (jes : float) (w' : World (list float) unit),
      sample_jes Double.tape_draw module_config Double.sampler_world = (OK jes, w') /\
      (JES_MIN module_config <=? jes)%float = true /\
      (jes <=? JES_MAX module_config)%float = true) /\
  (exists (px py : float) (w' : World (list float) unit),
      sample_met Double.tape_draw module_config Double.sampler_world
        = (OK (px, py), w') /\
      ((MET_MIN module_config <=? px)%float = true /\
       (px <=? MET_MAX module_config)%float = true /\
       (0 <=? px)%float = true) /\
      ((MET_MIN module_config <=? py)%float = true /\
       (py <=? MET_MAX module_config)%float = true /\
       (0 <=? py)%float = true)).
Proof.
  destruct (sampler_within_bounds Double.tape_draw Double.tape_draw
              Double.sampler_world) as [HJ HM].
  split.
  - apply (HJ 0.5%float [7.0%float]); reflexivity.
  - apply (HM 0.5%float 7.0%float [7.0%float] []); reflexivity.
Defined.

(** ** Runs on the test doubles *)

(** The MET-only block with two cycles on the three-row base table. *)
Lemma family_output_blocks_witness :
  exists T : Table,
    disk (snd (generate Double.tape_draw Double.tape_draw Double.copy_apply
                 Double.two_cycles MET_only Double.base_table Double.world0))
      !! OUTPUT_MET_ONLY = Some T /\
    num_rows T = 6 /\
    exists a : Array,
      column T "syst_tag" = Some a /\
      values a = [Int 0; Int 0; Int 0; Int 1; Int 1; Int 1].
Proof.
  destruct (family_output_blocks Double.tape_draw Double.tape_draw
              Double.copy_apply Double.two_cycles MET_only Double.base_table
              Double.world0
              (snd (generate Double.tape_draw Double.tape_draw Double.copy_apply
                      Double.two_cycles MET_only Double.base_table Double.world0)))
    as (T & HT & _ & Hrows & _ & (a & Ha & Hv & _)).
  - cbn. lia.
  - intros os ms rg s t s' H. by injection H as <- _.
  - vm_compute. reflexivity.
  - exists T. split; [exact HT|]. split; [exact Hrows|].
    exists a. split; [exact Ha|]. rewrite Hv. reflexivity.
Defined.

(** Counterexample to C2 as stated: on a working slice without rows,
    with an applier that returns the slice (so the row count is
    preserved), the MET-only block with two cycles completes and writes
    a table without rows, whose [syst_tag] column is empty: neither of
    the tags 0 and 1 occurs in it. *)
Lemma empty_slice_has_no_tags :
  (forall os ms rg s t s',
      Double.copy_apply Double.empty_table os ms rg s = (OK t, s') ->
      num_rows t = num_rows Double.empty_table) /\
  exists (w' : World (list float) unit) (T : Table) (a : Array),
    generate Double.tape_draw Double.tape_draw Double.copy_apply
      Double.two_cycles MET_only Double.empty_table Double.world0 = (OK tt, w') /\
    disk w' !! OUTPUT_MET_ONLY = Some T /\
    num_rows T = 0 /\
    column T "syst_tag" = Some a /\
    values a = [] /\
    ~ In (Int 0) (values a) /\ ~ In (Int 1) (values a).
Proof.
  split.
  - intros os ms rg s t s' H. by injection H as <- _.
  - do 3 eexists. split; [vm_compute; reflexivity|].
    split; [vm_compute; reflexivity|]. split; [reflexivity|].
    split; [vm_compute; reflexivity|]. split; [reflexivity|].
    split; intros [].
Qed.

(** The JES-only loop with two cycles. *)
Lemma cycle_bookkeeping_witness :
  exists (ts : list Table) (w' : World (list float) unit),
    family_tables Double.tape_draw Double.tape_draw Double.copy_apply
      Double.two_cycles JES_only Double.base_table Double.world0 = (OK ts, w') /\
    length ts = 2 /\
    forall (i : nat) (t : Table),
      ts !! i = Some t -> annotated JES_only (Z.of_nat i) t.
Proof.
  destruct (cycle_bookkeeping Double.tape_draw Double.tape_draw Double.copy_apply
              Double.two_cycles JES_only Double.base_table) as [_ Hloop].
  do 2 eexists. split; [vm_compute; reflexivity|].
  eapply (Hloop Double.world0). vm_compute. reflexivity.
Defined.

(** Counterexample to C6 as stated: under a configuration whose JES clipping
    interval is inverted ([JES_MIN = 0.10 >= JES_MAX = -0.10]) the run is
    not rejected: it consumes the twelve prepared draws and completes
    with the three files written. *)
Lemma invalid_configuration_runs :
  valid_config Double.inverted_jes = false /\
  fst (main Double.tape_draw Double.tape_draw Double.copy_apply
         Double.inverted_jes Double.world0) = OK tt /\
  rng (snd (main Double.tape_draw Double.tape_draw Double.copy_apply
              Double.inverted_jes Double.world0)) = [] /\
  forall fam : Family,
    exists T : Table,
      disk (snd (main Double.tape_draw Double.tape_draw Double.copy_apply
                   Double.inverted_jes Double.world0)) !! output_path fam = Some T /\
      num_rows T = 6.
Proof.
  split; [reflexivity|]. split; [vm_compute; reflexivity|].
  split; [vm_compute; reflexivity|].
  intros []; eexists; (split; [vm_compute; reflexivity|reflexivity]).
Qed.

(** A run under the inverted configuration whose random source fails at
    the first draw: the failure of the draw is the outcome of the run. *)
Lemma no_configuration_check_witness :
  valid_config module_config = true /\
  main Double.tape_draw Double.tape_draw Double.copy_apply Double.inverted_jes
    Double.dry_world
  = (Error (ExternalError "tape exhausted"), Double.dry_world).
Proof.
  destruct (no_configuration_check Double.tape_draw Double.tape_draw
              Double.copy_apply Double.inverted_jes) as [Hvalid Hrun].
  split; [exact Hvalid|].
  apply (Hrun Double.dry_world Double.base_table
           (ExternalError "tape exhausted") []); reflexivity.
Defined.


(** Two runs whose appliers start from different call counts. *)
Lemma two_runs_same_outputs_witness :
  fst (main Double.tape_draw Double.tape_draw Double.counting_apply
         Double.two_cycles (Double.counting_world 0))
  = fst (main Double.tape_draw Double.tape_draw Double.counting_apply
           Double.two_cycles (Double.counting_world 5)) /\
  (fst (main Double.tape_draw Double.tape_draw Double.counting_apply
          Double.two_cycles (Double.counting_world 0)) = OK tt ->
   forall fam : Family,
     exists T : Table,
       disk (snd (main Double.tape_draw Double.tape_draw Double.counting_apply
                    Double.two_cycles (Double.counting_world 0)))
         !! output_path fam = Some T /\
       disk (snd (main Double.tape_draw Double.tape_draw Double.counting_apply
                    Double.two_cycles (Double.counting_world 5)))
         !! output_path fam = Some T).
Proof.
  apply (two_runs_same_outputs Double.tape_draw Double.tape_draw
           Double.counting_apply Double.two_cycles).
  - intros base os ms rg s1 s2. reflexivity.
  - reflexivity.
  - reflexivity.
Defined.

(** * Part III: further properties *)

(** ** The order of floats *)

Module FloatOrderFacts.

Import FloatOrder.

Lemma lexcmp_Lt (a b : Z * Z * Z) : lexcmp a b = Lt <-> klt a b.
Proof.
  destruct a as [[a1 a2] a3], b as [[b1 b2] b3]. unfold lexcmp, klt. cbn.
  destruct (Z.compare_spec a1 b1), (Z.compare_spec a2 b2), (Z.compare_spec a3 b3);
    split; intros Hgoal; try done; lia.
Qed.

Lemma lexcmp_Gt (a b : Z * Z * Z) : lexcmp a b = Gt <-> klt b a.
Proof.
  destruct a as [[a1 a2] a3], b as [[b1 b2] b3]. unfold lexcmp, klt. cbn.
  destruct (Z.compare_spec a1 b1), (Z.compare_spec a2 b2), (Z.compare_spec a3 b3);
    split; intros Hgoal; try done; lia.
Qed.

Lemma lexcmp_Eq (a b : Z * Z * Z) : lexcmp a b = Eq <-> a = b.
Proof.
  destruct a as [[a1 a2] a3], b as [[b1 b2] b3]. unfold lexcmp. cbn.
  destruct (Z.compare_spec a1 b1), (Z.compare_spec a2 b2), (Z.compare_spec a3 b3);
    split; intros Hgoal; try done; try (injection Hgoal; lia); by subst.
Qed.

(** The comparison of two floats that are numbers is the comparison of
    their keys. *)
Lemma SFcompare_key (x y : spec_float) :
  x <> S754_nan -> y <> S754_nan -> SFcompare x y = Some (lexcmp (key x) (key y)).
Proof.
  destruct x as [sx | sx | | sx mx ex], y as [sy | sy | | sy my ey];
    intros Hx Hy; try done; cbn [SFcompare key];
    repeat match goal with s : bool |- _ => destruct s end;
    try reflexivity; unfold lexcmp; cbn [fst snd].
  rewrite Z.compare_opp, (Z.compare_antisym ey ex).
  change (Z.neg mx ?= Z.neg my)%Z with (CompOpp (mx ?= my)%positive).
  change (Pos.compare_cont Eq mx my) with (mx ?= my)%positive.
  change (-1 ?= -1)%Z with Eq.
  by destruct (ey ?= ex)%Z.
Qed.

Lemma isnan_false (x : float) : PyFloat.isnan x = false <-> number x.
Proof.
  unfold PyFloat.isnan, number. rewrite negb_false_iff, FloatAxioms.eqb_spec.
  unfold SFeqb. split.
  - intros H Hx. rewrite Hx in H. done.
  - intros Hx. rewrite SFcompare_key by done.
    by rewrite (proj2 (lexcmp_Eq _ _) eq_refl).
Qed.

Lemma isnan_true (x : float) : PyFloat.isnan x = true <-> ~ number x.
Proof.
  rewrite <- isnan_false. by destruct (PyFloat.isnan x).
Qed.

Lemma ltb_klt (x y : float) :
  (x <? y)%float = true <-> number x /\ number y /\ klt (fkey x) (fkey y).
Proof.
  rewrite ltb_spec. unfold SFltb, number, fkey. split.
  - intros H.
    destruct (SFcompare (Prim2SF x) (Prim2SF y)) as [c|] eqn:Hc; [|done].
    destruct (PyFloatFacts.SFcompare_not_nan _ _ _ Hc) as [Hx Hy].
    rewrite SFcompare_key in Hc by done. injection Hc as <-.
    split; [done|]. split; [done|]. apply lexcmp_Lt. by destruct (lexcmp _ _).
  - intros (Hx & Hy & Hlt). rewrite SFcompare_key by done.
    by rewrite (proj2 (lexcmp_Lt _ _) Hlt).
Qed.

Lemma leb_kle (x y : float) :
  (x <=? y)%float = true <->
  number x /\ number y /\ (klt (fkey x) (fkey y) \/ fkey x = fkey y).
Proof.
  rewrite leb_spec. unfold SFleb, number, fkey. split.
  - intros H.
    destruct (SFcompare (Prim2SF x) (Prim2SF y)) as [c|] eqn:Hc; [|done].
    destruct (PyFloatFacts.SFcompare_not_nan _ _ _ Hc) as [Hx Hy].
    rewrite SFcompare_key in Hc by done. injection Hc as <-.
    split; [done|]. split; [done|].
    destruct (lexcmp _ _) eqn:Hl; [right|left|done].
    + by apply lexcmp_Eq.
    + by apply lexcmp_Lt.
  - intros (Hx & Hy & [Hlt|Heq]); rewrite SFcompare_key by done.
    + by rewrite (proj2 (lexcmp_Lt _ _) Hlt).
    + by rewrite (proj2 (lexcmp_Eq _ _) Heq).
Qed.

(** The order of keys is a strict order. *)
Lemma klt_trans (a b c : Z * Z * Z) : klt a b -> klt b c -> klt a c.
Proof.
  destruct a as [[a1 a2] a3], b as [[b1 b2] b3], c as [[c1 c2] c3].
  unfold klt. cbn. lia.
Qed.

Lemma klt_irrefl (a b : Z * Z * Z) : klt a b -> klt b a -> False.
Proof.
  destruct a as [[a1 a2] a3], b as [[b1 b2] b3]. unfold klt. cbn. lia.
Qed.

Lemma klt_neq (a : Z * Z * Z) : ~ klt a a.
Proof. destruct a as [[a1 a2] a3]. unfold klt. cbn. lia. Qed.

(** [x < y] fails between numbers exactly when [y <= x]. *)
Lemma ltb_false_leb (x y : float) :
  number x -> number y -> (x <? y)%float = false -> (y <=? x)%float = true.
Proof.
  intros Hx Hy H. apply leb_kle. split; [done|]. split; [done|].
  destruct (lexcmp (fkey x) (fkey y)) eqn:Hl.
  - right. symmetry. by apply lexcmp_Eq.
  - assert ((x <? y)%float = true) as Ht by (apply ltb_klt; by rewrite <- lexcmp_Lt).
    congruence.
  - left. by apply lexcmp_Gt.
Qed.

Lemma leb_ltb_false (x y : float) :
  (y <=? x)%float = true -> (x <? y)%float = false.
Proof.
  intros H. apply leb_kle in H as (Hy & Hx & Hle).
  destruct (x <? y)%float eqn:Hlt; [|done].
  apply ltb_klt in Hlt as (_ & _ & Hlt). destruct Hle as [Hle|Heq].
  - by destruct (klt_irrefl _ _ Hlt Hle).
  - rewrite Heq in Hlt. by destruct (klt_neq _ Hlt).
Qed.

Lemma ltb_leb_trans (x y z : float) :
  (x <? y)%float = true -> (y <=? z)%float = true -> (x <? z)%float = true.
Proof.
  intros H1 H2. apply ltb_klt in H1 as (Hx & Hy & H1).
  apply leb_kle in H2 as (_ & Hz & H2). apply ltb_klt.
  split; [done|]. split; [done|]. destruct H2 as [H2|<-]; [|done].
  by eapply klt_trans.
Qed.

Lemma leb_ltb_trans (x y z : float) :
  (x <=? y)%float = true -> (y <? z)%float = true -> (x <? z)%float = true.
Proof.
  intros H1 H2. apply leb_kle in H1 as (Hx & Hy & H1).
  apply ltb_klt in H2 as (_ & Hz & H2). apply ltb_klt.
  split; [done|]. split; [done|]. destruct H1 as [H1| ->]; [|done].
  by eapply klt_trans.
Qed.

End FloatOrderFacts.

(** ** Clipping *)

Module ClipFacts.

Import FloatOrder FloatOrderFacts.

Lemma ltb_number_l (x y : float) : (x <? y)%float = true -> PyFloat.isnan x = false.
Proof. intros H. apply isnan_false. by apply ltb_klt in H as (? & _). Qed.

Lemma ltb_number_r (x y : float) : (x <? y)%float = true -> PyFloat.isnan y = false.
Proof. intros H. apply isnan_false. by apply ltb_klt in H as (_ & ? & _). Qed.

Lemma leb_number_l (x y : float) : (x <=? y)%float = true -> PyFloat.isnan x = false.
Proof. intros H. apply isnan_false. by apply leb_kle in H as (? & _). Qed.

Lemma leb_number_r (x y : float) : (x <=? y)%float = true -> PyFloat.isnan y = false.
Proof. intros H. apply isnan_false. by apply leb_kle in H as (_ & ? & _). Qed.

(** A value strictly inside the interval is returned as it is. *)
Lemma clip_inside (a lo hi : float) :
  (lo <? a)%float = true -> (a <? hi)%float = true -> clip a lo hi = a.
Proof.
  intros Hlo Hhi. unfold clip, maximum, minimum, PyFloat.gtb.
  by rewrite (ltb_number_l _ _ Hhi), Hlo, (ltb_number_l _ _ Hhi), Hhi.
Qed.

(** A value at or below the lower bound becomes the lower bound. *)
Lemma clip_below (a lo hi : float) :
  (lo <? hi)%float = true -> (a <=? lo)%float = true -> clip a lo hi = lo.
Proof.
  intros Hlh Ha. unfold clip, maximum, minimum, PyFloat.gtb.
  by rewrite (leb_number_l _ _ Ha), (leb_ltb_false _ _ Ha),
    (ltb_number_l _ _ Hlh), Hlh.
Qed.

(** A value at or above the upper bound becomes the upper bound. *)
Lemma clip_above (a lo hi : float) :
  (lo <? hi)%float = true -> (hi <=? a)%float = true -> clip a lo hi = hi.
Proof.
  intros Hlh Ha. unfold clip, maximum, minimum, PyFloat.gtb.
  by rewrite (leb_number_r _ _ Ha), (ltb_leb_trans _ _ _ Hlh Ha),
    (leb_number_r _ _ Ha), (leb_ltb_false _ _ Ha).
Qed.

(** NaN passes through. *)
Lemma clip_nan (a lo hi : float) : PyFloat.isnan a = true -> clip a lo hi = a.
Proof.
  intros Ha. unfold clip, maximum, minimum. by rewrite Ha, Ha.
Qed.

(** With bounds in the wrong order every number becomes the upper bound. *)
Lemma clip_inverted (a lo hi : float) :
  PyFloat.isnan a = false -> (hi <=? lo)%float = true -> clip a lo hi = hi.
Proof.
  intros Ha Hhl. unfold clip, maximum, minimum, PyFloat.gtb. rewrite Ha.
  destruct (lo <? a)%float eqn:Hla.
  - rewrite Ha.
    by rewrite (leb_ltb_false a hi
                  (PyFloatFacts.ltb_leb _ _ (leb_ltb_trans _ _ _ Hhl Hla))).
  - by rewrite (leb_number_r _ _ Hhl), (leb_ltb_false _ _ Hhl).
Qed.

(** The result is within the bounds exactly when the value is a number. *)
Lemma clip_between_iff (a lo hi : float) :
  (lo <=? hi)%float = true ->
  ((lo <=? clip a lo hi)%float = true /\ (clip a lo hi <=? hi)%float = true)
  <-> PyFloat.isnan a = false.
Proof.
  intros Hlh. split.
  - intros [H _]. destruct (PyFloat.isnan a) eqn:Ha; [|done].
    rewrite (clip_nan _ _ _ Ha) in H. apply leb_number_r in H. congruence.
  - intros Ha. by apply NumpyFacts.clip_between.
Qed.

End ClipFacts.

(** ** The sampler, beyond its bounds *)

Section SamplerMore.

Context {Rng App : Type}.
Variable np_random_normal : float -> float -> Rng -> result float * Rng.
Variable np_random_lognormal : float -> float -> Rng -> result float * Rng.
Variable cfg : Config.

Local Abbreviation sample_jes' := (sample_jes (App:=App) np_random_normal cfg).
Local Abbreviation sample_met' := (sample_met (App:=App) np_random_lognormal cfg).

Lemma saturated_clip (lo hi z : float) :
  (lo <? hi)%float = true -> saturated lo hi z (clip z lo hi).
Proof.
  intros Hlh. split; [|split].
  - by apply ClipFacts.clip_inside.
  - by apply ClipFacts.clip_below.
  - by apply ClipFacts.clip_above.
Qed.

(** X1: with [JES_MIN < JES_MAX], [sample_jes] truncates by saturation:
    a draw strictly inside the interval is returned as it is, a draw at
    or below [JES_MIN] is returned as [JES_MIN], a draw at or above
    [JES_MAX] as [JES_MAX]; exactly one draw is taken. *)
Theorem sample_jes_saturates (w : World Rng App) (z : float) (g : Rng) :
  np_random_normal 0%float (JES_SIGMA cfg) (rng w) = (OK z, g) ->
  (JES_MIN cfg <? JES_MAX cfg)%float = true ->
  exists r : float,
    sample_jes' w = (OK r, mk_World g (applier w) (disk w)) /\
    saturated (JES_MIN cfg) (JES_MAX cfg) z r.
Proof.
  intros Hdraw Hlh. rewrite (sample_jes_draw _ _ _ _ _ Hdraw).
  eexists. split; [done|]. by apply saturated_clip.
Qed.

(** X2: with [MET_MIN < MET_MAX], [sample_met] takes two draws, the
    first for px and the second for py, and truncates each by
    saturation, independently of the other. *)
Theorem sample_met_saturates (w : World Rng App) (z1 z2 : float) (g1 g2 : Rng) :
  np_random_lognormal (MET_LOGNORM_MEAN cfg) (MET_LOGNORM_SIGMA cfg) (rng w)
    = (OK z1, g1) ->
  np_random_lognormal (MET_LOGNORM_MEAN cfg) (MET_LOGNORM_SIGMA cfg) g1
    = (OK z2, g2) ->
  (MET_MIN cfg <? MET_MAX cfg)%float = true ->
  exists px py : float,
    sample_met' w = (OK (px, py), mk_World g2 (applier w) (disk w)) /\
    saturated (MET_MIN cfg) (MET_MAX cfg) z1 px /\
    saturated (MET_MIN cfg) (MET_MAX cfg) z2 py.
Proof.
  intros Hd1 Hd2 Hlh. rewrite (sample_met_draw _ _ _ _ _ _ _ Hd1 Hd2).
  do 2 eexists. split; [done|]. split; by apply saturated_clip.
Qed.

(** X3: with [min <= max], the value a sampler returns lies within the
    bounds exactly when the draw is a number: a NaN draw is returned as
    NaN, by [sample_jes] and in either component by [sample_met]. *)
Theorem sampler_bounds_iff_number (w : World Rng App) :
  (forall (z : float) (g : Rng),
      np_random_normal 0%float (JES_SIGMA cfg) (rng w) = (OK z, g) ->
      (JES_MIN cfg <=? JES_MAX cfg)%float = true ->
      exists r : float,
        sample_jes' w = (OK r, mk_World g (applier w) (disk w)) /\
        (within (JES_MIN cfg) (JES_MAX cfg) r <-> PyFloat.isnan z = false) /\
        (PyFloat.isnan z = true -> r = z)) /\
  (forall (z1 z2 : float) (g1 g2 : Rng),
      np_random_lognormal (MET_LOGNORM_MEAN cfg) (MET_LOGNORM_SIGMA cfg) (rng w)
        = (OK z1, g1) ->
      np_random_lognormal (MET_LOGNORM_MEAN cfg) (MET_LOGNORM_SIGMA cfg) g1
        = (OK z2, g2) ->
      (MET_MIN cfg <=? MET_MAX cfg)%float = true ->
      exists px py : float,
        sample_met' w = (OK (px, py), mk_World g2 (applier w) (disk w)) /\
        (within (MET_MIN cfg) (MET_MAX cfg) px <-> PyFloat.isnan z1 = false) /\
        (within (MET_MIN cfg) (MET_MAX cfg) py <-> PyFloat.isnan z2 = false) /\
        (PyFloat.isnan z1 = true -> px = z1) /\
        (PyFloat.isnan z2 = true -> py = z2)).
Proof.
  split.
  - intros z g Hdraw Hlh. rewrite (sample_jes_draw _ _ _ _ _ Hdraw).
    eexists. split; [done|]. split.
    + by apply ClipFacts.clip_between_iff.
    + apply ClipFacts.clip_nan.
  - intros z1 z2 g1 g2 Hd1 Hd2 Hlh.
    rewrite (sample_met_draw _ _ _ _ _ _ _ Hd1 Hd2).
    do 2 eexists. split; [done|].
    split; [by apply ClipFacts.clip_between_iff|].
    split; [by apply ClipFacts.clip_between_iff|].
    split; apply ClipFacts.clip_nan.
Qed.

(** X4: with the bounds in the wrong order ([max <= min]) the samplers do
    not fail: every draw that is a number is returned as the upper bound,
    [JES_MAX] by [sample_jes] and [MET_MAX] in both components by
    [sample_met]. *)
Theorem sampler_inverted_bounds (w : World Rng App) :
  (forall (z : float) (g : Rng),
      np_random_normal 0%float (JES_SIGMA cfg) (rng w) = (OK z, g) ->
      (JES_MAX cfg <=? JES_MIN cfg)%float = true ->
      PyFloat.isnan z = false ->
      sample_jes' w = (OK (JES_MAX cfg), mk_World g (applier w) (disk w))) /\
  (forall (z1 z2 : float) (g1 g2 : Rng),
      np_random_lognormal (MET_LOGNORM_MEAN cfg) (MET_LOGNORM_SIGMA cfg) (rng w)
        = (OK z1, g1) ->
      np_random_lognormal (MET_LOGNORM_MEAN cfg) (MET_LOGNORM_SIGMA cfg) g1
        = (OK z2, g2) ->
      (MET_MAX cfg <=? MET_MIN cfg)%float = true ->
      PyFloat.isnan z1 = false -> PyFloat.isnan z2 = false ->
      sample_met' w
      = (OK (MET_MAX cfg, MET_MAX cfg), mk_World g2 (applier w) (disk w))).
Proof.
  split.
  - intros z g Hdraw Hhl Hz. rewrite (sample_jes_draw _ _ _ _ _ Hdraw).
    by rewrite ClipFacts.clip_inverted.
  - intros z1 z2 g1 g2 Hd1 Hd2 Hhl Hz1 Hz2.
    rewrite (sample_met_draw _ _ _ _ _ _ _ Hd1 Hd2).
    by rewrite !ClipFacts.clip_inverted.
Qed.

End SamplerMore.

(** ** The selection of the JES shift, on every array *)

(** X5: on a well-formed array the selection of the JES shift is
    defined exactly when the array has a last axis of more than five
    elements: then it returns one boolean per row, and otherwise (no
    axis, or a last axis of at most five elements) it raises
    [IndexError]. *)
Theorem select_defined_iff (jes : float) (x : ndarray float) :
  well_formed x ->
  Forall (fun entry : string * ObjectShift =>
            match select entry.2 x with
            | OK m =>
                exists (lead : list nat) (k : nat),
                  shape x = lead ++ [k] /\ 5 < k /\
                  shape m = lead /\ length (data m) = size lead
            | Error e =>
                e = IndexError /\
                forall (lead : list nat) (k : nat),
                  shape x = lead ++ [k] -> k <= 5
            end)
    (make_jes_object_shift jes).
Proof.
  intros Hwf. repeat constructor. cbn [select snd].
  unfold getitem_last.
  destruct (last (shape x)) as [k|] eqn:Hlast.
  - assert (shape x = removelast (shape x) ++ [k]) as Hsh.
    { destruct (shape x) as [|n sh] eqn:Hs; [done|].
      rewrite (app_removelast_last k) at 1 by done.
      f_equal. f_equal. clear -Hlast.
      revert n Hlast. induction sh as [|n' sh IH]; intros n Hlast.
      - by injection Hlast as <-.
      - cbn [List.last]. by apply IH. }
    destruct (Nat.ltb_spec 5 k) as [Hk|Hk].
    + unfold well_formed in Hwf. rewrite Hsh, NumpyFacts.size_snoc in Hwf.
      destruct (NumpyFacts.take_along_last_spec k 5 (size (removelast (shape x)))
                  (data x) Hk) as (d & Hd & Hlen & _); [lia|].
      rewrite Hd. cbn. exists (removelast (shape x)), k.
      split; [done|]. split; [done|]. split; [done|]. by rewrite length_map.
    + cbn. split; [done|]. intros lead k' Hsh'. rewrite Hsh' in Hsh.
      apply app_inj_tail in Hsh as [_ ->]. lia.
  - cbn. split; [done|]. intros lead k Hsh. rewrite Hsh in Hlast.
    by rewrite NumpyFacts.last_snoc in Hlast.
Qed.

(** ** When the annotator raises *)

Lemma forallb_replicate_false {A} (f : A -> bool) (n : nat) (x : A) :
  forallb f (replicate n x) = false <-> 0 < n /\ f x = false.
Proof.
  induction n as [|n IH]; cbn.
  - split; [done|]. intros [? _]. lia.
  - destruct (f x) eqn:Hf; cbn.
    + rewrite IH. split; intros [? ?]; done.
    + split; [|done]. intros _. split; [lia|done].
Qed.

(** X6: [add_syst_columns] raises in one case only: the table has at
    least one row and the tag does not fit in a signed 64-bit integer;
    the error is then the overflow of the tag column. *)
Theorem add_syst_columns_raises_iff
    (table : Table) (jes met_px met_py : float) (tag : Z) :
  ((exists e, add_syst_columns table jes met_px met_py tag = Error e) <->
   (0 < num_rows table /\ fits_int64 tag = false)) /\
  (forall e, add_syst_columns table jes met_px met_py tag = Error e ->
             e = OverflowError).
Proof.
  rewrite ArrowFacts.add_syst_columns_tags. unfold array_int64.
  destruct (forallb fits_int64 (replicate (num_rows table) tag)) eqn:Hall; cbn.
  - split; [|done]. split; [by intros [e ?]|].
    intros H. apply forallb_replicate_false in H. congruence.
  - apply forallb_replicate_false in Hall. split.
    + split; [done|]. intros _. by eexists.
    + by intros e [= <-].
Qed.

(** ** Tables, further *)

Lemma output_paths_NoDup :
  NoDup (map output_path [JES_only; MET_only; JES_MET]).
Proof.
  cbn. unfold OUTPUT_JES_ONLY, OUTPUT_MET_ONLY, OUTPUT_JES_MET.
  rewrite !NoDup_cons, !list_elem_of_In. cbn.
  repeat split; try apply NoDup_nil_2; intuition discriminate.
Qed.

Lemma slice_num_rows (t : Table) (len : Z) :
  num_rows (slice t 0 len) = Nat.min (Z.to_nat len) (num_rows t).
Proof. unfold slice. cbn. by rewrite Nat.sub_0_r. Qed.

Lemma range_fits (n i : Z) :
  (n <= 9223372036854775808)%Z -> In i (range n) -> fits_int64 i = true.
Proof.
  intros Hn Hi. unfold range in Hi. apply in_map_iff in Hi as (k & <- & Hk).
  apply in_seq in Hk. unfold fits_int64.
  apply andb_true_intro. split; apply Z.leb_le; lia.
Qed.

Lemma merge_field_same (f : string * DataType) (acc : Schema) :
  In f acc -> NoDup (map fst acc) -> merge_field f acc = OK acc.
Proof.
  induction acc as [|g acc IH]; [done|]. cbn [merge_field map].
  intros Hin Hnd. apply NoDup_cons in Hnd as [Hg Hnd].
  destruct (decide (g.1 = f.1)) as [Heq|Hne].
  - assert (g = f) as <-.
    { destruct Hin as [Hin|Hin]; [done|]. destruct Hg.
      rewrite Heq. apply list_elem_of_In. by apply in_map. }
    unfold merge_type. rewrite decide_True by done. cbn. by destruct g.
  - destruct Hin as [->|Hin]; [done|]. by rewrite IH.
Qed.

Lemma merge_schema_same (s acc : Schema) :
  (forall f, In f s -> In f acc) -> NoDup (map fst acc) ->
  merge_schema s acc = OK acc.
Proof.
  induction s as [|f s IH]; intros Hincl Hnd; [done|]. cbn [merge_schema].
  rewrite merge_field_same by (try done; apply Hincl; by left). cbn.
  apply IH; [|done]. intros g Hg. apply Hincl. by right.
Qed.

Lemma merge_schemas_same (ss : list Schema) (s : Schema) :
  Forall (fun s' => s' = s) ss -> NoDup (map fst s) -> merge_schemas ss s = OK s.
Proof.
  induction 1 as [|s' ss -> _ IH]; intros Hnd; [done|]. cbn [merge_schemas].
  rewrite merge_schema_same by done. cbn. by apply IH.
Qed.

(** Tables that share one schema without repeated names concatenate. *)
Lemma concat_tables_same_schema (ts : list Table) (s : Schema) :
  ts <> [] -> Forall (fun t => schema t = s) ts -> NoDup (map fst s) ->
  exists T, concat_tables ts = OK T.
Proof.
  intros Hne Hall Hnd. unfold concat_tables, unify_schemas.
  destruct ts as [|t0 ts]; [done|]. cbn [map].
  assert (Forall (fun s' => s' = s) (map schema (t0 :: ts))) as Hall'.
  { clear -Hall. induction Hall as [|t ts' Ht _ IH]; constructor; done. }
  assert (forallb distinct_names (schema t0 :: map schema ts) = true) as ->.
  { apply forallb_forall. intros s' Hs'.
    apply list_elem_of_In in Hs'.
    rewrite (proj1 (Forall_forall _ _) Hall' s' Hs').
    by apply bool_decide_eq_true. }
  cbn [map] in Hall'. apply Forall_cons in Hall' as [-> Hall'].
  rewrite merge_schemas_same by done. cbn. by eexists.
Qed.

Lemma annotated_schema (shifted : Table) (jes px py : float) (i : Z) :
  schema (mk_Table (num_rows shifted)
            (columns shifted ++ syst_columns (num_rows shifted) jes px py i))
  = schema shifted ++ bookkeeping_schema.
Proof. unfold schema. cbn [columns]. by rewrite map_app. Qed.

Lemma concat_tables_schema (ts : list Table) (T : Table) (s : Schema) :
  concat_tables ts = OK T -> Forall (fun t => schema t = s) ts -> schema T = s.
Proof.
  intros HT Hall.
  pose proof (ConcatFacts.concat_tables_inv _ _ HT) as (_ & Hnd & t0 & ts' & -> & _).
  assert (NoDup (map fst s)) as Hs.
  { apply Forall_cons in Hall as [<- _]. apply Forall_cons in Hnd as [Hnd _].
    by rewrite ConcatFacts.schema_names. }
  assert (Forall (fun s' => s' = s) (map schema (t0 :: ts'))) as Hall'.
  { clear -Hall. induction Hall as [|t ts Ht _ IH]; constructor; done. }
  unfold concat_tables, unify_schemas in HT. cbn [map] in HT, Hall'.
  destruct (forallb distinct_names (schema t0 :: map schema ts')); [|done].
  apply Forall_cons in Hall' as [Ht0 Hall']. rewrite Ht0 in HT.
  rewrite merge_schemas_same in HT by done. cbn in HT. injection HT as <-.
  unfold schema. cbn [columns]. rewrite map_map. cbn.
  clear. induction s as [|[n ty] s IH]; [done|]. cbn. by rewrite IH.
Qed.

Lemma Forall_exists_Forall2 {A B} (P : A -> B -> Prop) (l : list B) :
  Forall (fun b => exists a, P a b) l -> exists k, Forall2 P k l.
Proof.
  induction 1 as [|b l [a Ha] _ [k IH]].
  - by exists [].
  - exists (a :: k). by constructor.
Qed.

Lemma lookup_field_app {V} (name : string) (l1 l2 : list (string * V)) :
  lookup_field name (l1 ++ l2)
  = match lookup_field name l1 with
    | Some v => Some v
    | None => lookup_field name l2
    end.
Proof.
  induction l1 as [|f l1 IH]; [done|]. cbn.
  by destruct (decide (f.1 = name)).
Qed.

(** The bookkeeping columns do not hide a column of another name. *)
Lemma column_or_nulls_annotate (name : string) (shifted : Table)
    (rec : float * float * float) (tag : Z) :
  ~ In name bookkeeping_names ->
  column_or_nulls name (annotate_with shifted rec tag)
  = column_or_nulls name shifted.
Proof.
  intros Hname. unfold column_or_nulls, column, annotate_with. cbn [columns num_rows].
  rewrite lookup_field_app. destruct (lookup_field name (columns shifted)); [done|].
  unfold bookkeeping_names in Hname. cbn in Hname. cbn.
  repeat (destruct (decide _) as [<-|_]; [tauto|]). done.
Qed.

Lemma map_column_or_nulls_annotate (name : string) (P : Table -> Prop)
    (shs ts : list Table) :
  ~ In name bookkeeping_names ->
  Forall2 (fun sh t => P sh /\ exists rec tag, t = annotate_with sh rec tag) shs ts ->
  map (column_or_nulls name) ts = map (column_or_nulls name) shs.
Proof.
  intros Hname. induction 1 as [|sh t shs ts [_ (rec & tag & ->)] _ IH]; [done|].
  cbn [map]. f_equal; [by apply column_or_nulls_annotate|done].
Qed.

(** ** The pipeline, further *)

Section PipelineMore.

Context {Rng App : Type}.
Variable np_random_normal : float -> float -> Rng -> result float * Rng.
Variable np_random_lognormal : float -> float -> Rng -> result float * Rng.
Variable syst_apply :
  Table -> option ObjectShifts -> option MetShift -> bool -> App -> result Table * App.
Variable cfg : Config.

Local Notation "x <- m ;; k" := (bind m (fun x => k))
  (at level 100, m at next level, right associativity).

Local Abbreviation sample_jes' := (sample_jes (App:=App) np_random_normal cfg).
Local Abbreviation sample_met' := (sample_met (App:=App) np_random_lognormal cfg).
Local Abbreviation apply' := (SystematicsApplier_apply (Rng:=Rng) syst_apply).
Local Abbreviation cycle' :=
  (cycle np_random_normal np_random_lognormal syst_apply cfg).
Local Abbreviation family_tables' :=
  (family_tables np_random_normal np_random_lognormal syst_apply cfg).
Local Abbreviation generate' :=
  (generate np_random_normal np_random_lognormal syst_apply cfg).
Local Abbreviation run_families' :=
  (run_families np_random_normal np_random_lognormal syst_apply cfg).
Local Abbreviation main' :=
  (main np_random_normal np_random_lognormal syst_apply cfg).
Local Abbreviation N := (Z.to_nat (N_DATASETS_PER_TYPE cfg)).

(** *** What the bookkeeping records *)

Lemma apply_OK_inv' (base t : Table) (os : option ObjectShifts)
    (ms : option MetShift) (rg : bool) (w w' : World Rng App) :
  apply' base os ms rg w = (OK t, w') ->
  exists s', syst_apply base os ms rg (applier w) = (OK t, s').
Proof.
  unfold SystematicsApplier_apply.
  destruct (syst_apply _ _ _ _ _) as [r s']. intros [= -> _]. by exists s'.
Qed.

(** A cycle that completes has sampled the parameters of its family,
    has called the applier once, on the base table, with the shift
    descriptions built from these parameters and with
    [recompute_globals=True], and has annotated the returned table with
    these same parameters and its index. *)
Lemma cycle_trace (fam : Family) (base : Table) (i : Z) (w w' : World Rng App)
    (t : Table) :
  cycle' fam base i w = (OK t, w') ->
  exists (shifted : Table) (jes px py : float) (s s' : App),
    syst_apply base (object_shifts_of fam jes) (met_shift_of fam px py) true s
      = (OK shifted, s') /\
    t = annotate_with shifted (recorded fam jes px py) i /\
    (fam <> MET_only -> exists wa wb, sample_jes' wa = (OK jes, wb)) /\
    (fam <> JES_only -> exists wa wb, sample_met' wa = (OK (px, py), wb)).
Proof.
  destruct fam; cbn [cycle].
  - unfold jes_only_cycle. intros H.
    apply bind_OK_inv in H as (jes & w1 & Hjes & H).
    apply bind_OK_inv in H as (shifted & w2 & Happ & H).
    apply bind_OK_inv in H as (t' & w3 & Hadd & H).
    apply ret_inv in H as [-> _].
    apply lift_OK_inv in Hadd as [Hadd _].
    apply apply_OK_inv' in Happ as [s' Happ].
    apply ArrowFacts.add_syst_columns_inv in Hadd.
    exists shifted, jes, 0%float, 0%float, (applier w1), s'.
    split; [done|]. split; [done|]. split; [by eauto|done].
  - unfold met_only_cycle. intros H.
    apply bind_OK_inv in H as ([px py] & w1 & Hmet & H).
    apply bind_OK_inv in H as (shifted & w2 & Happ & H).
    apply bind_OK_inv in H as (t' & w3 & Hadd & H).
    apply ret_inv in H as [-> _].
    apply lift_OK_inv in Hadd as [Hadd _].
    apply apply_OK_inv' in Happ as [s' Happ].
    apply ArrowFacts.add_syst_columns_inv in Hadd.
    exists shifted, 0%float, px, py, (applier w1), s'.
    split; [done|]. split; [done|]. split; [done|by eauto].
  - unfold jes_met_cycle. intros H.
    apply bind_OK_inv in H as (jes & w1 & Hjes & H).
    apply bind_OK_inv in H as ([px py] & w1' & Hmet & H).
    apply bind_OK_inv in H as (shifted & w2 & Happ & H).
    apply bind_OK_inv in H as (t' & w3 & Hadd & H).
    apply ret_inv in H as [-> _].
    apply lift_OK_inv in Hadd as [Hadd _].
    apply apply_OK_inv' in Happ as [s' Happ].
    apply ArrowFacts.add_syst_columns_inv in Hadd.
    exists shifted, jes, px, py, (applier w1'), s'.
    split; [done|]. split; [done|]. split; by eauto.
Qed.

(** The tables of a completed loop, cycle by cycle. *)
Lemma family_tables_trace (fam : Family) (base : Table)
    (w w' : World Rng App) (ts : list Table) :
  family_tables' fam base w = (OK ts, w') ->
  forall (i : nat) (t : Table), ts !! i = Some t ->
    exists (shifted : Table) (jes px py : float) (s s' : App),
      syst_apply base (object_shifts_of fam jes) (met_shift_of fam px py) true s
        = (OK shifted, s') /\
      t = annotate_with shifted (recorded fam jes px py) (Z.of_nat i) /\
      (fam <> MET_only -> exists wa wb, sample_jes' wa = (OK jes, wb)) /\
      (fam <> JES_only -> exists wa wb, sample_met' wa = (OK (px, py), wb)).
Proof.
  unfold family_tables. intros H i t Hi.
  apply for_each_OK_inv in H as (ts' & -> & Hall). cbn [app] in Hi.
  pose proof (Forall2_length _ _ _ Hall) as Hlen. rewrite range_length in Hlen.
  assert (i < N) as Hlt by (rewrite Hlen; by eapply lookup_lt_Some).
  destruct (Forall2_lookup_lr _ _ _ i _ _ Hall (range_lookup _ _ Hlt) Hi)
    as (w1 & w2 & Hc).
  by eapply cycle_trace.
Qed.

(** X7: the bookkeeping columns trace the perturbation.  When the loop
    of a family completes, the table at position [i] is the table that
    the applier returned for the base table (never for an already
    shifted table), called with [recompute_globals=True], with the JES
    shift description of a sampled [jes] (none in the MET-only family)
    and the MET offsets of a sampled pair (none in the JES-only family),
    followed by the bookkeeping columns that record these same values
    ([0.0] for the parameters of the other family) and the tag [i]. *)
Theorem bookkeeping_traces_shift (fam : Family) (base : Table)
    (w w' : World Rng App) (ts : list Table) :
  family_tables' fam base w = (OK ts, w') ->
  forall (i : nat) (t : Table), ts !! i = Some t ->
    exists (shifted : Table) (jes px py : float) (s s' : App),
      syst_apply base (object_shifts_of fam jes) (met_shift_of fam px py) true s
        = (OK shifted, s') /\
      t = annotate_with shifted (recorded fam jes px py) (Z.of_nat i) /\
      (fam <> MET_only -> exists wa wb, sample_jes' wa = (OK jes, wb)) /\
      (fam <> JES_only -> exists wa wb, sample_met' wa = (OK (px, py), wb)).
Proof.
  unfold family_tables. intros H i t Hi.
  apply for_each_OK_inv in H as (ts' & -> & Hall). cbn [app] in Hi.
  pose proof (Forall2_length _ _ _ Hall) as Hlen. rewrite range_length in Hlen.
  assert (i < N) as Hlt by (rewrite Hlen; by eapply lookup_lt_Some).
  destruct (Forall2_lookup_lr _ _ _ i _ _ Hall (range_lookup _ _ Hlt) Hi)
    as (w1 & w2 & Hc).
  by eapply cycle_trace.
Qed.

(** *** The files a run touches *)

Lemma generate_other_paths (fam : Family) (base : Table) (w : World Rng App)
    (p : string) :
  p <> output_path fam ->
  disk (snd (generate' fam base w)) !! p = disk w !! p.
Proof.
  intros Hp. destruct (generate' fam base w) as [[[]|e] w'] eqn:Hgen; cbn.
  - apply generate_OK_inv in Hgen as (ts & wc & T & _ & _ & _ & _ & ->).
    by apply lookup_insert_ne.
  - apply generate_Error_inv in Hgen. by rewrite Hgen.
Qed.

Lemma run_families_other_paths (fams : list Family) (base : Table)
    (w : World Rng App) (p : string) :
  ~ In p (map output_path fams) ->
  disk (snd (run_families' fams base w)) !! p = disk w !! p.
Proof.
  revert w. induction fams as [|fam fams IH]; intros w Hp; [done|].
  cbn [run_families]. unfold bind.
  pose proof (generate_other_paths fam base w p) as Hgen.
  destruct (generate' fam base w) as [[[]|e] w1]; cbn in *.
  - rewrite IH by tauto. apply Hgen. intros ->. tauto.
  - apply Hgen. intros ->. tauto.
Qed.

(** X8: whatever its outcome, a run changes no file other than the
    three output files; in particular the base dataset on disk is the
    same after the run. *)
Theorem main_touches_only_outputs (w : World Rng App) :
  (forall p : string,
      ~ In p [OUTPUT_JES_ONLY; OUTPUT_MET_ONLY; OUTPUT_JES_MET] ->
      disk (snd (main' w)) !! p = disk w !! p) /\
  disk (snd (main' w)) !! INPUT_PARQUET = disk w !! INPUT_PARQUET.
Proof.
  assert (forall p : string,
             ~ In p [OUTPUT_JES_ONLY; OUTPUT_MET_ONLY; OUTPUT_JES_MET] ->
             disk (snd (main' w)) !! p = disk w !! p) as Hother.
  { intros p Hp. rewrite main_run_families.
    destruct (disk w !! INPUT_PARQUET) as [t0|]; [|done].
    by apply run_families_other_paths. }
  split; [exact Hother|]. apply Hother.
  unfold INPUT_PARQUET, OUTPUT_JES_ONLY, OUTPUT_MET_ONLY, OUTPUT_JES_MET.
  cbn. intuition discriminate.
Qed.

(** *** Runs that cannot start *)

(** X9: when the base dataset is not on disk the run raises
    [FileNotFoundError] at once: no draw is taken, the applier is not
    called and nothing is written. *)
Theorem main_missing_input (w : World Rng App) :
  disk w !! INPUT_PARQUET = None ->
  main' w = (Error FileNotFoundError, w).
Proof. intros H. by rewrite main_run_families, H. Qed.

(** X10: with no cycle to run ([N_DATASETS_PER_TYPE <= 0]) the first
    loop collects no table and the concatenation of the empty list
    raises: the run ends with that error without a draw, without a call
    of the applier and without writing a file. *)
Theorem main_without_cycles (w : World Rng App) (t0 : Table) :
  (N_DATASETS_PER_TYPE cfg <= 0)%Z ->
  disk w !! INPUT_PARQUET = Some t0 ->
  main' w = (Error ArrowInvalid, w).
Proof.
  intros HN Hread. rewrite main_run_families, Hread. cbn [run_families].
  unfold bind, generate, bind, family_tables, range.
  replace (Z.to_nat (N_DATASETS_PER_TYPE cfg)) with 0 by lia. done.
Qed.

(** *** A base dataset that is already annotated *)

(** X11: [add_syst_columns] appends without looking at the names that
    are there, and the concatenation refuses tables with a repeated
    column name.  So if the tables returned by the applier already carry
    a column with one of the four bookkeeping names, no block completes:
    it raises and leaves the disk as it was. *)
Theorem annotated_input_fails (fam : Family) (base : Table) (w : World Rng App) :
  (forall os ms rg s t s',
      syst_apply base os ms rg s = (OK t, s') ->
      exists name, In name bookkeeping_names /\ In name (map fst (columns t))) ->
  exists (e : exn) (w' : World Rng App),
    generate' fam base w = (Error e, w') /\ disk w' = disk w.
Proof.
  intros Hdup. destruct (generate' fam base w) as [[[]|e] w'] eqn:Hgen.
  - exfalso.
    apply generate_OK_inv in Hgen as (ts & wc & T & Hts & HT & _).
    apply ConcatFacts.concat_tables_inv in HT as (_ & Hnd & t0 & ts' & -> & _).
    apply Forall_cons in Hnd as [Hnd _].
    destruct (family_tables_trace fam base w wc (t0 :: ts') Hts 0 t0 eq_refl)
      as (shifted & jes & px & py & s & s' & Happ & -> & _).
    destruct (Hdup _ _ _ _ _ _ Happ) as (name & Hname & Hin).
    unfold annotate_with in Hnd. cbn [columns] in Hnd. rewrite map_app in Hnd.
    apply NoDup_app in Hnd as (_ & Hdisj & _).
    apply (Hdisj name); apply list_elem_of_In; [done|].
    unfold bookkeeping_names in Hname. cbn in *. tauto.
  - exists e, w'. split; [done|]. by eapply generate_Error_inv.
Qed.

(** *** The rows of the output files *)

(** X12: if the applier returns for the working slice a table with as
    many rows as the slice, a run that completes has run at least one
    cycle per family and leaves under each of the three output names a
    table of [N * min(BASE_SLICE, rows of the base dataset)] rows. *)
Theorem main_output_rows (w w' : World Rng App) (t0 : Table) :
  disk w !! INPUT_PARQUET = Some t0 ->
  (forall os ms rg s t s',
      syst_apply (slice t0 0 (BASE_SLICE cfg)) os ms rg s = (OK t, s') ->
      num_rows t = num_rows (slice t0 0 (BASE_SLICE cfg))) ->
  main' w = (OK tt, w') ->
  0 < N /\
  forall fam : Family,
    exists T : Table,
      disk w' !! output_path fam = Some T /\
      num_rows T = N * Nat.min (Z.to_nat (BASE_SLICE cfg)) (num_rows t0).
Proof.
  intros Hread Happ Hmain. rewrite main_run_families, Hread in Hmain.
  apply run_families_OK_inv in Hmain as [_ Hfams].
  specialize (Hfams output_paths_NoDup).
  assert (forall fam : Family,
             exists T : Table,
               disk w' !! output_path fam = Some T /\
               0 < N /\
               num_rows T = N * Nat.min (Z.to_nat (BASE_SLICE cfg)) (num_rows t0))
    as Hall.
  { intros fam.
    destruct (Hfams fam) as (ts & wa & wb & T & Hts & HT & Hlook).
    { destruct fam; cbn; tauto. }
    exists T. split; [done|].
    apply ConcatFacts.concat_tables_inv in HT as (Hrows & Hnd & t1 & ts' & Hts' & _).
    destruct (family_blocks _ _ _ _ fam _ wa wb ts "syst_tag" Happ Hts Hnd)
      as [Hin _]; [cbn; tauto|].
    pose proof (family_tables_OK_inv _ _ _ _ _ _ _ _ _ Hts) as [Hlen _].
    split.
    - rewrite <- Hlen, Hts'. cbn. lia.
    - rewrite Hrows, <- slice_num_rows, <- Hlen.
      apply ConcatFacts.sum_num_rows.
      eapply Forall_impl; [exact Hin|]. by intros t [? _]. }
  split.
  - by destruct (Hall JES_only) as (T & _ & HN & _).
  - intros fam. destruct (Hall fam) as (T & HT & _ & Hrows). by exists T.
Qed.

(** *** Runs that complete *)

Lemma for_each_OK (xs : list Z) (body : Z -> M Table) (P : Table -> Prop) :
  (forall i, In i xs -> forall w : World Rng App,
      exists t w', body i w = (OK t, w') /\ P t) ->
  forall (acc : list Table) (w : World Rng App),
    exists ts w', for_each xs body acc w = (OK (acc ++ ts), w') /\
      length ts = length xs /\ Forall P ts.
Proof.
  induction xs as [|i xs IH]; intros Hbody acc w; cbn [for_each].
  - exists [], w. by rewrite app_nil_r.
  - destruct (Hbody i (or_introl eq_refl) w) as (t & w1 & Ht & HP).
    rewrite (bind_OK _ _ _ _ _ Ht).
    destruct (IH (fun j Hj => Hbody j (or_intror Hj)) (acc ++ [t]) w1)
      as (ts & w' & Hts & Hlen & Hall).
    exists (t :: ts), w'. rewrite Hts, <- app_assoc. cbn.
    split; [done|]. split; [by rewrite Hlen|]. by constructor.
Qed.

Section Total.

Variable base : Table.
Variable sch0 : Schema.

(** The collaborators never raise, and the applier returns tables of
    one schema, whose names are distinct and are not bookkeeping names. *)
Hypothesis normal_total :
  forall loc scale g, exists z g', np_random_normal loc scale g = (OK z, g').
Hypothesis lognormal_total :
  forall mean sigma g, exists z g', np_random_lognormal mean sigma g = (OK z, g').
Hypothesis applier_total :
  forall os ms rg s,
    exists t s', syst_apply base os ms rg s = (OK t, s') /\ schema t = sch0.
Hypothesis names_distinct : NoDup (map fst (sch0 ++ bookkeeping_schema)).
Hypothesis cycles_fit :
  (0 < N_DATASETS_PER_TYPE cfg <= 9223372036854775808)%Z.

Lemma sample_jes_OK (w : World Rng App) :
  exists jes w', sample_jes' w = (OK jes, w').
Proof.
  destruct (normal_total 0%float (JES_SIGMA cfg) (rng w)) as (z & g & Hz).
  rewrite (sample_jes_draw _ _ _ _ _ Hz). by eauto.
Qed.

Lemma sample_met_OK (w : World Rng App) :
  exists p w', sample_met' w = (OK p, w').
Proof.
  destruct (lognormal_total (MET_LOGNORM_MEAN cfg) (MET_LOGNORM_SIGMA cfg) (rng w))
    as (z1 & g1 & Hz1).
  destruct (lognormal_total (MET_LOGNORM_MEAN cfg) (MET_LOGNORM_SIGMA cfg) g1)
    as (z2 & g2 & Hz2).
  rewrite (sample_met_draw _ _ _ _ _ _ _ Hz1 Hz2). by eauto.
Qed.

Lemma apply_OK (os : option ObjectShifts) (ms : option MetShift) (rg : bool)
    (w : World Rng App) :
  exists t w', apply' base os ms rg w = (OK t, w') /\ schema t = sch0.
Proof.
  destruct (applier_total os ms rg (applier w)) as (t & s' & Ht & Hs).
  unfold SystematicsApplier_apply. rewrite Ht. by eauto.
Qed.

Lemma cycle_OK (fam : Family) (i : Z) (w : World Rng App) :
  fits_int64 i = true ->
  exists t w', cycle' fam base i w = (OK t, w') /\
    schema t = sch0 ++ bookkeeping_schema.
Proof.
  intros Hi. destruct fam; cbn [cycle].
  - unfold jes_only_cycle.
    destruct (sample_jes_OK w) as (jes & w1 & Hjes).
    rewrite (bind_OK _ _ _ _ _ Hjes).
    destruct (apply_OK (Some (make_jes_object_shift jes)) None true w1)
      as (t & w2 & Ht & Hs).
    rewrite (bind_OK _ _ _ _ _ Ht).
    unfold bind, lift, ret.
    rewrite ArrowFacts.add_syst_columns_OK by (by right).
    do 2 eexists. split; [done|]. by rewrite annotated_schema, Hs.
  - unfold met_only_cycle.
    destruct (sample_met_OK w) as ([px py] & w1 & Hmet).
    rewrite (bind_OK _ _ _ _ _ Hmet).
    destruct (apply_OK None (Some [("px"%string, px); ("py"%string, py)]) true w1)
      as (t & w2 & Ht & Hs).
    rewrite (bind_OK _ _ _ _ _ Ht).
    unfold bind, lift, ret.
    rewrite ArrowFacts.add_syst_columns_OK by (by right).
    do 2 eexists. split; [done|]. by rewrite annotated_schema, Hs.
  - unfold jes_met_cycle.
    destruct (sample_jes_OK w) as (jes & w1 & Hjes).
    rewrite (bind_OK _ _ _ _ _ Hjes).
    destruct (sample_met_OK w1) as ([px py] & w1' & Hmet).
    rewrite (bind_OK _ _ _ _ _ Hmet).
    destruct (apply_OK (Some (make_jes_object_shift jes))
                (Some [("px"%string, px); ("py"%string, py)]) true w1')
      as (t & w2 & Ht & Hs).
    rewrite (bind_OK _ _ _ _ _ Ht).
    unfold bind, lift, ret.
    rewrite ArrowFacts.add_syst_columns_OK by (by right).
    do 2 eexists. split; [done|]. by rewrite annotated_schema, Hs.
Qed.

Lemma generate_OK (fam : Family) (w : World Rng App) :
  exists w', generate' fam base w = (OK tt, w').
Proof.
  unfold generate, family_tables.
  destruct (for_each_OK (range (N_DATASETS_PER_TYPE cfg)) (cycle' fam base)
              (fun t => schema t = sch0 ++ bookkeeping_schema))
    with (acc := @nil Table) (w := w)
    as (ts & w1 & Hts & Hlen & Hall).
  { intros i Hi w0. apply cycle_OK. eapply range_fits; [|done]. lia. }
  cbn [app] in Hts. rewrite (bind_OK _ _ _ _ _ Hts).
  destruct (concat_tables_same_schema ts (sch0 ++ bookkeeping_schema)) as [T HT].
  - rewrite range_length in Hlen. intros ->. cbn in Hlen. lia.
  - done.
  - done.
  - unfold bind, lift, write_table. rewrite HT. by eexists.
Qed.

Lemma run_families_OK (fams : list Family) (w : World Rng App) :
  exists w', run_families' fams base w = (OK tt, w').
Proof.
  revert w. induction fams as [|fam fams IH]; intros w; cbn [run_families].
  - by exists w.
  - destruct (generate_OK fam w) as [w1 Hgen].
    rewrite (bind_OK _ _ _ _ _ Hgen). apply IH.
Qed.

End Total.

(** X13: a run completes when nothing around it fails: if the base
    dataset is on disk, the two generators and the applier (called on
    the working slice) never raise, the applier returns tables of one
    schema whose column names are distinct and are none of the four
    bookkeeping names, and the number of cycles is between 1 and 2^63,
    then [main] returns normally and has written the three output
    files. *)
Theorem main_completes (w : World Rng App) (t0 : Table) (sch0 : Schema) :
  disk w !! INPUT_PARQUET = Some t0 ->
  (forall loc scale g, exists z g', np_random_normal loc scale g = (OK z, g')) ->
  (forall mean sigma g,
      exists z g', np_random_lognormal mean sigma g = (OK z, g')) ->
  (forall os ms rg s,
      exists t s',
        syst_apply (slice t0 0 (BASE_SLICE cfg)) os ms rg s = (OK t, s') /\
        schema t = sch0) ->
  NoDup (map fst (sch0 ++ bookkeeping_schema)) ->
  (0 < N_DATASETS_PER_TYPE cfg <= 9223372036854775808)%Z ->
  exists w' : World Rng App,
    main' w = (OK tt, w') /\
    forall fam : Family, is_Some (disk w' !! output_path fam).
Proof.
  intros Hread Hn Hl Ha Hnd HN. rewrite main_run_families, Hread.
  destruct (run_families_OK (slice t0 0 (BASE_SLICE cfg)) sch0 Hn Hl Ha Hnd HN
              [JES_only; MET_only; JES_MET] w) as [w' Hrun].
  exists w'. split; [done|]. intros fam.
  apply run_families_OK_inv in Hrun as [_ Hfams].
  destruct (Hfams output_paths_NoDup fam) as (ts & wa & wb & T & _ & _ & HT).
  { destruct fam; cbn; tauto. }
  by exists T.
Qed.

(** *** The schema and the data of the output files *)

(** X14: if every table the applier returns for the working slice has
    the schema [sch0], then after a run that completes each of the three
    output files has the columns of [sch0], in their order and with
    their types, followed by [syst_jes], [syst_met_px], [syst_met_py] of
    type [float32] and [syst_tag] of type [int64]. *)
Theorem main_output_schema (w w' : World Rng App) (t0 : Table) (sch0 : Schema) :
  disk w !! INPUT_PARQUET = Some t0 ->
  (forall os ms rg s t s',
      syst_apply (slice t0 0 (BASE_SLICE cfg)) os ms rg s = (OK t, s') ->
      schema t = sch0) ->
  main' w = (OK tt, w') ->
  forall fam : Family,
    exists T : Table,
      disk w' !! output_path fam = Some T /\
      schema T = sch0 ++ bookkeeping_schema.
Proof.
  intros Hread Happ Hmain fam. rewrite main_run_families, Hread in Hmain.
  apply run_families_OK_inv in Hmain as [_ Hfams].
  destruct (Hfams output_paths_NoDup fam) as (ts & wa & wb & T & Hts & HT & Hlook).
  { destruct fam; cbn; tauto. }
  exists T. split; [done|]. apply (concat_tables_schema ts); [done|].
  apply Forall_lookup. intros i t Hi.
  destruct (family_tables_trace _ _ _ _ _ Hts i t Hi)
    as (shifted & jes & px & py & s & s' & Hs & -> & _).
  unfold annotate_with, schema. cbn [columns]. rewrite map_app.
  f_equal. by apply (Happ _ _ _ _ _ _ Hs).
Qed.

(** X15: the data of an output file are the tables of the applier, one
    after the other.  When a block completes there are [N] tables, each
    returned by the applier for the base table, such that every column
    of the written table that is named in the first of them and is not a
    bookkeeping column holds the rows of that column of these tables in
    cycle order (nulls for a table that lacks the column). *)
Theorem family_output_data (fam : Family) (base : Table) (w w' : World Rng App) :
  generate' fam base w = (OK tt, w') ->
  exists (T : Table) (shifteds : list Table),
    disk w' !! output_path fam = Some T /\
    length shifteds = N /\
    Forall (fun shifted =>
              exists os ms s s',
                syst_apply base os ms true s = (OK shifted, s')) shifteds /\
    forall name : string,
      ~ In name bookkeeping_names ->
      (exists first rest,
          shifteds = first :: rest /\ In name (map fst (columns first))) ->
      exists a : Array,
        column T name = Some a /\
        values a = concat (map (column_or_nulls name) shifteds).
Proof.
  intros Hgen.
  apply generate_OK_inv in Hgen as (ts & wc & T & Hts & HT & _ & _ & Hdisk).
  pose proof (family_tables_OK_inv _ _ _ _ _ _ _ _ _ Hts) as [Hlen _].
  assert (exists shifteds,
            Forall2 (fun shifted t =>
                       (exists os ms s s',
                           syst_apply base os ms true s = (OK shifted, s')) /\
                       exists rec tag, t = annotate_with shifted rec tag)
              shifteds ts) as [shifteds Hsh].
  { apply Forall_exists_Forall2, Forall_lookup. intros i t Hi.
    destruct (family_tables_trace _ _ _ _ _ Hts i t Hi)
      as (shifted & jes & px & py & s & s' & Hs & -> & _).
    exists shifted. split; by eauto 6. }
  exists T, shifteds. split; [rewrite Hdisk; apply lookup_insert_eq|].
  split; [by rewrite (Forall2_length _ _ _ Hsh)|]. split.
  { eapply Forall2_Forall_l; [exact Hsh|]. apply Forall_forall. by intros t _ sh [? _]. }
  intros name Hname (first & rest & -> & Hin).
  apply ConcatFacts.concat_tables_inv in HT as (_ & _ & t1 & ts' & -> & Hcol).
  apply Forall2_cons_inv_l in Hsh as (t1' & ts'' & [_ (rec & tag & Ht1)] & Hrest & Heq).
  injection Heq as <- <-.
  destruct (Hcol name) as (a & Ha & Hv).
  { rewrite Ht1. unfold annotate_with. cbn [columns]. rewrite map_app.
    apply in_or_app. by left. }
  exists a. split; [done|]. rewrite Hv. f_equal. cbn [map]. f_equal.
  - rewrite Ht1. by apply column_or_nulls_annotate.
  - by apply (map_column_or_nulls_annotate name _ _ _ Hname Hrest).
Qed.

End PipelineMore.

(** ** Further runs on the test doubles *)

(** A normal draw of 0.5 under the configuration of the script is cut to
    [JES_MAX]. *)
Lemma sample_jes_saturates_witness :
  sample_jes Double.tape_draw module_config Double.sampler_world
  = (OK (JES_MAX module_config), mk_World [7.0%float] tt Double.base_disk).
Proof.
  destruct (sample_jes_saturates Double.tape_draw module_config
              Double.sampler_world 0.5%float [7.0%float] eq_refl eq_refl)
    as (r & Hr & _ & _ & Habove).
  rewrite Hr. by rewrite (Habove eq_refl).
Defined.

(** Log-normal draws of 0.5 and 7.0: the first is kept, the second is
    cut to [MET_MAX]. *)
Lemma sample_met_saturates_witness :
  sample_met Double.tape_draw module_config Double.sampler_world
  = (OK (0.5%float, MET_MAX module_config), mk_World [] tt Double.base_disk).
Proof.
  destruct (sample_met_saturates Double.tape_draw module_config
              Double.sampler_world 0.5%float 7.0%float [7.0%float] []
              eq_refl eq_refl eq_refl)
    as (px & py & Hr & (Hin & _ & _) & (_ & _ & Habove)).
  rewrite Hr. by rewrite (Hin eq_refl eq_refl), (Habove eq_refl).
Defined.

(** The selection on two objects of seven features. *)
Lemma select_defined_iff_witness :
  Forall (fun entry : string * ObjectShift =>
            match select entry.2 Double.objects with
            | OK m =>
                exists (lead : list nat) (k : nat),
                  shape Double.objects = lead ++ [k] /\ 5 < k /\
                  shape m = lead /\ length (data m) = size lead
            | Error e =>
                e = IndexError /\
                forall (lead : list nat) (k : nat),
                  shape Double.objects = lead ++ [k] -> k <= 5
            end)
    (make_jes_object_shift 0.05).
Proof.
  apply (select_defined_iff 0.05 Double.objects). reflexivity.
Defined.

(** The MET-only loop with two cycles. *)
Lemma bookkeeping_traces_shift_witness :
  exists (ts : list Table) (w' : World (list float) unit),
    family_tables Double.tape_draw Double.tape_draw Double.copy_apply
      Double.two_cycles MET_only Double.base_table Double.world0 = (OK ts, w') /\
    forall (i : nat) (t : Table), ts !! i = Some t ->
      exists (shifted : Table) (jes px py : float) (s s' : unit),
        Double.copy_apply Double.base_table (object_shifts_of MET_only jes)
          (met_shift_of MET_only px py) true s = (OK shifted, s') /\
        t = annotate_with shifted (recorded MET_only jes px py) (Z.of_nat i) /\
        (MET_only <> MET_only ->
         exists wa wb,
           sample_jes (App:=unit) Double.tape_draw Double.two_cycles wa
           = (OK jes, wb)) /\
        (MET_only <> JES_only ->
         exists wa wb,
           sample_met (App:=unit) Double.tape_draw Double.two_cycles wa
           = (OK (px, py), wb)).
Proof.
  do 2 eexists. split; [vm_compute; reflexivity|].
  eapply (bookkeeping_traces_shift Double.tape_draw Double.tape_draw
            Double.copy_apply Double.two_cycles MET_only Double.base_table
            Double.world0).
  vm_compute. reflexivity.
Defined.

(** A run on a disk without the base dataset. *)
Lemma main_missing_input_witness :
  main Double.tape_draw Double.tape_draw Double.copy_apply Double.two_cycles
    Rig.no_input_world
  = (Error FileNotFoundError, Rig.no_input_world).
Proof.
  apply (main_missing_input Double.tape_draw Double.tape_draw Double.copy_apply
           Double.two_cycles Rig.no_input_world).
  reflexivity.
Defined.

(** A run configured without cycles. *)
Lemma main_without_cycles_witness :
  main Double.tape_draw Double.tape_draw Double.copy_apply Rig.no_cycles
    Double.world0
  = (Error ArrowInvalid, Double.world0).
Proof.
  apply (main_without_cycles Double.tape_draw Double.tape_draw Double.copy_apply
           Rig.no_cycles Double.world0 Double.base_table).
  - cbn. lia.
  - reflexivity.
Defined.

(** A block whose applier returns tables that already have a [syst_tag]
    column. *)
Lemma annotated_input_fails_witness :
  exists (e : exn) (w' : World (list float) unit),
    generate Double.tape_draw Double.tape_draw Rig.tagged_apply Double.two_cycles
      JES_only Double.base_table Double.world0 = (Error e, w') /\
    disk w' = disk Double.world0.
Proof.
  apply (annotated_input_fails Double.tape_draw Double.tape_draw Rig.tagged_apply
           Double.two_cycles JES_only Double.base_table Double.world0).
  intros os ms rg s t s' H. injection H as <- _.
  exists "syst_tag"%string. split; cbn; tauto.
Defined.

(** A complete run with two cycles on a working slice of two of the
    three rows: every output has four rows. *)
Lemma main_output_rows_witness :
  0 < 2 /\
  forall fam : Family,
    exists T : Table,
      disk (snd (main Double.tape_draw Double.tape_draw Double.copy_apply
                   Rig.two_rows Double.world0)) !! output_path fam = Some T /\
      num_rows T = 4.
Proof.
  apply (main_output_rows Double.tape_draw Double.tape_draw Double.copy_apply
           Rig.two_rows Double.world0
           (snd (main Double.tape_draw Double.tape_draw Double.copy_apply
                   Rig.two_rows Double.world0))
           Double.base_table).
  - reflexivity.
  - intros os ms rg s t s' H. by injection H as <- _.
  - vm_compute. reflexivity.
Defined.

(** A run with collaborators that never fail. *)
Lemma main_completes_witness :
  exists w' : World unit unit,
    main (Rig.steady_draw 0.05) (Rig.steady_draw 1.5) Double.copy_apply
      Double.two_cycles Rig.steady_world = (OK tt, w') /\
    forall fam : Family, is_Some (disk w' !! output_path fam).
Proof.
  apply (main_completes (Rig.steady_draw 0.05) (Rig.steady_draw 1.5)
           Double.copy_apply Double.two_cycles Rig.steady_world Double.base_table
           (schema (slice Double.base_table 0 (BASE_SLICE Double.two_cycles)))).
  - reflexivity.
  - intros loc scale g. by eexists _, _.
  - intros mean sigma g. by eexists _, _.
  - intros os ms rg s. by eexists _, _.
  - apply (bool_decide_unpack _). by vm_compute.
  - cbn. lia.
Defined.

(** The schema of the outputs of a complete run on the three-row base
    table. *)
Lemma main_output_schema_witness :
  Forall (fun fam : Family =>
            exists T : Table,
              disk (snd (main Double.tape_draw Double.tape_draw Double.copy_apply
                           Double.two_cycles Double.world0))
                !! output_path fam = Some T /\
              schema T
              = [("pt"%string, float32); ("type"%string, int64)]
                ++ bookkeeping_schema)
    [JES_only; MET_only; JES_MET].
Proof.
  apply Forall_forall. intros fam _. revert fam.
  apply (main_output_schema Double.tape_draw Double.tape_draw Double.copy_apply
           Double.two_cycles Double.world0
           (snd (main Double.tape_draw Double.tape_draw Double.copy_apply
                   Double.two_cycles Double.world0))
           Double.base_table).
  - reflexivity.
  - intros os ms rg s t s' H. by injection H as <- _.
  - vm_compute. reflexivity.
Defined.

(** The data of the MET-only output with two cycles. *)
Lemma family_output_data_witness :
  exists (T : Table) (shifteds : list Table),
    disk (snd (generate Double.tape_draw Double.tape_draw Double.copy_apply
                 Double.two_cycles MET_only Double.base_table Double.world0))
      !! output_path MET_only = Some T /\
    length shifteds = 2 /\
    Forall (fun shifted =>
              exists os ms s s',
                Double.copy_apply Double.base_table os ms true s
                = (OK shifted, s')) shifteds /\
    forall name : string,
      ~ In name bookkeeping_names ->
      (exists first rest,
          shifteds = first :: rest /\ In name (map fst (columns first))) ->
      exists a : Array,
        column T name = Some a /\
        values a = concat (map (column_or_nulls name) shifteds).
Proof.
  apply (family_output_data Double.tape_draw Double.tape_draw Double.copy_apply
           Double.two_cycles MET_only Double.base_table Double.world0).
  vm_compute. reflexivity.
Defined.
